(** * Verification of [extract_go_symbols.py]

    The script walks [./backend], reads every [*.go] file, runs two regular
    expressions over the whole text of the file with [re.finditer], builds
    one dictionary per match and dumps the accumulated list as JSON.

    The development follows the script top to bottom:
    - [Text]: Python [str] values as lists of code points, [str.strip],
      [str.endswith], the character classes of the [re] module;
    - [Re]: the fragment of the [re] pattern language the two patterns use,
      with the backtracking matcher and [finditer];
    - [Extract]: the two patterns and the body of [extract_go_symbols];
    - [Json]: [json.dump(..., indent=2)] and a reader for the documents;
    - [Walk]: the directory tree, [os.walk], [os.path.join] and the
      top-level script;
    - the vocabulary of the statements, then the properties: the matcher,
      the patterns, the records of one file, the walk, the output. *)

From Stdlib Require Import NArith Arith Bool Ascii String List Sorted
  Permutation Lia.
Import ListNotations.


(* ================================================================== *)
(** ** Text *)

Module Text.

(** A Python [str] is a sequence of Unicode code points. *)
Definition char := N.
Definition text := list char.

(** Literals of the script are ASCII; [txt] reads them from Rocq strings. *)
Definition txt (s : string) : text :=
  map N_of_ascii (list_ascii_of_string s).

Definition NL : char := 10%N.

Definition in_range (lo hi c : N) : bool := (lo <=? c)%N && (c <=? hi)%N.

(** [Py_UNICODE_ISSPACE]: the set used both by [\s] and by [str.strip]. *)
Definition is_space (c : char) : bool :=
  in_range 9 13 c || in_range 28 32 c || (c =? 133)%N || (c =? 160)%N
  || (c =? 5760)%N || in_range 8192 8202 c || in_range 8232 8233 c
  || (c =? 8239)%N || (c =? 8287)%N || (c =? 12288)%N.

(** Code points above ASCII for which [str.isalnum] holds (Unicode 14.0,
    the database of CPython 3.11), as inclusive ranges. *)
Definition alnum_ranges : list (N * N) :=
  [
    (170,170)%N; (178,179)%N; (181,181)%N; (185,186)%N; (188,190)%N; (192,214)%N;
    (216,246)%N; (248,705)%N; (710,721)%N; (736,740)%N; (748,748)%N; (750,750)%N;
    (880,884)%N; (886,887)%N; (890,893)%N; (895,895)%N; (902,902)%N; (904,906)%N;
    (908,908)%N; (910,929)%N; (931,1013)%N; (1015,1153)%N; (1162,1327)%N; (1329,1366)%N;
    (1369,1369)%N; (1376,1416)%N; (1488,1514)%N; (1519,1522)%N; (1568,1610)%N;
    (1632,1641)%N; (1646,1647)%N; (1649,1747)%N; (1749,1749)%N; (1765,1766)%N;
    (1774,1788)%N; (1791,1791)%N; (1808,1808)%N; (1810,1839)%N; (1869,1957)%N;
    (1969,1969)%N; (1984,2026)%N; (2036,2037)%N; (2042,2042)%N; (2048,2069)%N;
    (2074,2074)%N; (2084,2084)%N; (2088,2088)%N; (2112,2136)%N; (2144,2154)%N;
    (2160,2183)%N; (2185,2190)%N; (2208,2249)%N; (2308,2361)%N; (2365,2365)%N;
    (2384,2384)%N; (2392,2401)%N; (2406,2415)%N; (2417,2432)%N; (2437,2444)%N;
    (2447,2448)%N; (2451,2472)%N; (2474,2480)%N; (2482,2482)%N; (2486,2489)%N;
    (2493,2493)%N; (2510,2510)%N; (2524,2525)%N; (2527,2529)%N; (2534,2545)%N;
    (2548,2553)%N; (2556,2556)%N; (2565,2570)%N; (2575,2576)%N; (2579,2600)%N;
    (2602,2608)%N; (2610,2611)%N; (2613,2614)%N; (2616,2617)%N; (2649,2652)%N;
    (2654,2654)%N; (2662,2671)%N; (2674,2676)%N; (2693,2701)%N; (2703,2705)%N;
    (2707,2728)%N; (2730,2736)%N; (2738,2739)%N; (2741,2745)%N; (2749,2749)%N;
    (2768,2768)%N; (2784,2785)%N; (2790,2799)%N; (2809,2809)%N; (2821,2828)%N;
    (2831,2832)%N; (2835,2856)%N; (2858,2864)%N; (2866,2867)%N; (2869,2873)%N;
    (2877,2877)%N; (2908,2909)%N; (2911,2913)%N; (2918,2927)%N; (2929,2935)%N;
    (2947,2947)%N; (2949,2954)%N; (2958,2960)%N; (2962,2965)%N; (2969,2970)%N;
    (2972,2972)%N; (2974,2975)%N; (2979,2980)%N; (2984,2986)%N; (2990,3001)%N;
    (3024,3024)%N; (3046,3058)%N; (3077,3084)%N; (3086,3088)%N; (3090,3112)%N;
    (3114,3129)%N; (3133,3133)%N; (3160,3162)%N; (3165,3165)%N; (3168,3169)%N;
    (3174,3183)%N; (3192,3198)%N; (3200,3200)%N; (3205,3212)%N; (3214,3216)%N;
    (3218,3240)%N; (3242,3251)%N; (3253,3257)%N; (3261,3261)%N; (3293,3294)%N;
    (3296,3297)%N; (3302,3311)%N; (3313,3314)%N; (3332,3340)%N; (3342,3344)%N;
    (3346,3386)%N; (3389,3389)%N; (3406,3406)%N; (3412,3414)%N; (3416,3425)%N;
    (3430,3448)%N; (3450,3455)%N; (3461,3478)%N; (3482,3505)%N; (3507,3515)%N;
    (3517,3517)%N; (3520,3526)%N; (3558,3567)%N; (3585,3632)%N; (3634,3635)%N;
    (3648,3654)%N; (3664,3673)%N; (3713,3714)%N; (3716,3716)%N; (3718,3722)%N;
    (3724,3747)%N; (3749,3749)%N; (3751,3760)%N; (3762,3763)%N; (3773,3773)%N;
    (3776,3780)%N; (3782,3782)%N; (3792,3801)%N; (3804,3807)%N; (3840,3840)%N;
    (3872,3891)%N; (3904,3911)%N; (3913,3948)%N; (3976,3980)%N; (4096,4138)%N;
    (4159,4169)%N; (4176,4181)%N; (4186,4189)%N; (4193,4193)%N; (4197,4198)%N;
    (4206,4208)%N; (4213,4225)%N; (4238,4238)%N; (4240,4249)%N; (4256,4293)%N;
    (4295,4295)%N; (4301,4301)%N; (4304,4346)%N; (4348,4680)%N; (4682,4685)%N;
    (4688,4694)%N; (4696,4696)%N; (4698,4701)%N; (4704,4744)%N; (4746,4749)%N;
    (4752,4784)%N; (4786,4789)%N; (4792,4798)%N; (4800,4800)%N; (4802,4805)%N;
    (4808,4822)%N; (4824,4880)%N; (4882,4885)%N; (4888,4954)%N; (4969,4988)%N;
    (4992,5007)%N; (5024,5109)%N; (5112,5117)%N; (5121,5740)%N; (5743,5759)%N;
    (5761,5786)%N; (5792,5866)%N; (5870,5880)%N; (5888,5905)%N; (5919,5937)%N;
    (5952,5969)%N; (5984,5996)%N; (5998,6000)%N; (6016,6067)%N; (6103,6103)%N;
    (6108,6108)%N; (6112,6121)%N; (6128,6137)%N; (6160,6169)%N; (6176,6264)%N;
    (6272,6276)%N; (6279,6312)%N; (6314,6314)%N; (6320,6389)%N; (6400,6430)%N;
    (6470,6509)%N; (6512,6516)%N; (6528,6571)%N; (6576,6601)%N; (6608,6618)%N;
    (6656,6678)%N; (6688,6740)%N; (6784,6793)%N; (6800,6809)%N; (6823,6823)%N;
    (6917,6963)%N; (6981,6988)%N; (6992,7001)%N; (7043,7072)%N; (7086,7141)%N;
    (7168,7203)%N; (7232,7241)%N; (7245,7293)%N; (7296,7304)%N; (7312,7354)%N;
    (7357,7359)%N; (7401,7404)%N; (7406,7411)%N; (7413,7414)%N; (7418,7418)%N;
    (7424,7615)%N; (7680,7957)%N; (7960,7965)%N; (7968,8005)%N; (8008,8013)%N;
    (8016,8023)%N; (8025,8025)%N; (8027,8027)%N; (8029,8029)%N; (8031,8061)%N;
    (8064,8116)%N; (8118,8124)%N; (8126,8126)%N; (8130,8132)%N; (8134,8140)%N;
    (8144,8147)%N; (8150,8155)%N; (8160,8172)%N; (8178,8180)%N; (8182,8188)%N;
    (8304,8305)%N; (8308,8313)%N; (8319,8329)%N; (8336,8348)%N; (8450,8450)%N;
    (8455,8455)%N; (8458,8467)%N; (8469,8469)%N; (8473,8477)%N; (8484,8484)%N;
    (8486,8486)%N; (8488,8488)%N; (8490,8493)%N; (8495,8505)%N; (8508,8511)%N;
    (8517,8521)%N; (8526,8526)%N; (8528,8585)%N; (9312,9371)%N; (9450,9471)%N;
    (10102,10131)%N; (11264,11492)%N; (11499,11502)%N; (11506,11507)%N; (11517,11517)%N;
    (11520,11557)%N; (11559,11559)%N; (11565,11565)%N; (11568,11623)%N; (11631,11631)%N;
    (11648,11670)%N; (11680,11686)%N; (11688,11694)%N; (11696,11702)%N; (11704,11710)%N;
    (11712,11718)%N; (11720,11726)%N; (11728,11734)%N; (11736,11742)%N; (11823,11823)%N;
    (12293,12295)%N; (12321,12329)%N; (12337,12341)%N; (12344,12348)%N; (12353,12438)%N;
    (12445,12447)%N; (12449,12538)%N; (12540,12543)%N; (12549,12591)%N; (12593,12686)%N;
    (12690,12693)%N; (12704,12735)%N; (12784,12799)%N; (12832,12841)%N; (12872,12879)%N;
    (12881,12895)%N; (12928,12937)%N; (12977,12991)%N; (13312,19903)%N; (19968,42124)%N;
    (42192,42237)%N; (42240,42508)%N; (42512,42539)%N; (42560,42606)%N; (42623,42653)%N;
    (42656,42735)%N; (42775,42783)%N; (42786,42888)%N; (42891,42954)%N; (42960,42961)%N;
    (42963,42963)%N; (42965,42969)%N; (42994,43009)%N; (43011,43013)%N; (43015,43018)%N;
    (43020,43042)%N; (43056,43061)%N; (43072,43123)%N; (43138,43187)%N; (43216,43225)%N;
    (43250,43255)%N; (43259,43259)%N; (43261,43262)%N; (43264,43301)%N; (43312,43334)%N;
    (43360,43388)%N; (43396,43442)%N; (43471,43481)%N; (43488,43492)%N; (43494,43518)%N;
    (43520,43560)%N; (43584,43586)%N; (43588,43595)%N; (43600,43609)%N; (43616,43638)%N;
    (43642,43642)%N; (43646,43695)%N; (43697,43697)%N; (43701,43702)%N; (43705,43709)%N;
    (43712,43712)%N; (43714,43714)%N; (43739,43741)%N; (43744,43754)%N; (43762,43764)%N;
    (43777,43782)%N; (43785,43790)%N; (43793,43798)%N; (43808,43814)%N; (43816,43822)%N;
    (43824,43866)%N; (43868,43881)%N; (43888,44002)%N; (44016,44025)%N; (44032,55203)%N;
    (55216,55238)%N; (55243,55291)%N; (63744,64109)%N; (64112,64217)%N; (64256,64262)%N;
    (64275,64279)%N; (64285,64285)%N; (64287,64296)%N; (64298,64310)%N; (64312,64316)%N;
    (64318,64318)%N; (64320,64321)%N; (64323,64324)%N; (64326,64433)%N; (64467,64829)%N;
    (64848,64911)%N; (64914,64967)%N; (65008,65019)%N; (65136,65140)%N; (65142,65276)%N;
    (65296,65305)%N; (65313,65338)%N; (65345,65370)%N; (65382,65470)%N; (65474,65479)%N;
    (65482,65487)%N; (65490,65495)%N; (65498,65500)%N; (65536,65547)%N; (65549,65574)%N;
    (65576,65594)%N; (65596,65597)%N; (65599,65613)%N; (65616,65629)%N; (65664,65786)%N;
    (65799,65843)%N; (65856,65912)%N; (65930,65931)%N; (66176,66204)%N; (66208,66256)%N;
    (66273,66299)%N; (66304,66339)%N; (66349,66378)%N; (66384,66421)%N; (66432,66461)%N;
    (66464,66499)%N; (66504,66511)%N; (66513,66517)%N; (66560,66717)%N; (66720,66729)%N;
    (66736,66771)%N; (66776,66811)%N; (66816,66855)%N; (66864,66915)%N; (66928,66938)%N;
    (66940,66954)%N; (66956,66962)%N; (66964,66965)%N; (66967,66977)%N; (66979,66993)%N;
    (66995,67001)%N; (67003,67004)%N; (67072,67382)%N; (67392,67413)%N; (67424,67431)%N;
    (67456,67461)%N; (67463,67504)%N; (67506,67514)%N; (67584,67589)%N; (67592,67592)%N;
    (67594,67637)%N; (67639,67640)%N; (67644,67644)%N; (67647,67669)%N; (67672,67702)%N;
    (67705,67742)%N; (67751,67759)%N; (67808,67826)%N; (67828,67829)%N; (67835,67867)%N;
    (67872,67897)%N; (67968,68023)%N; (68028,68047)%N; (68050,68096)%N; (68112,68115)%N;
    (68117,68119)%N; (68121,68149)%N; (68160,68168)%N; (68192,68222)%N; (68224,68255)%N;
    (68288,68295)%N; (68297,68324)%N; (68331,68335)%N; (68352,68405)%N; (68416,68437)%N;
    (68440,68466)%N; (68472,68497)%N; (68521,68527)%N; (68608,68680)%N; (68736,68786)%N;
    (68800,68850)%N; (68858,68899)%N; (68912,68921)%N; (69216,69246)%N; (69248,69289)%N;
    (69296,69297)%N; (69376,69415)%N; (69424,69445)%N; (69457,69460)%N; (69488,69505)%N;
    (69552,69579)%N; (69600,69622)%N; (69635,69687)%N; (69714,69743)%N; (69745,69746)%N;
    (69749,69749)%N; (69763,69807)%N; (69840,69864)%N; (69872,69881)%N; (69891,69926)%N;
    (69942,69951)%N; (69956,69956)%N; (69959,69959)%N; (69968,70002)%N; (70006,70006)%N;
    (70019,70066)%N; (70081,70084)%N; (70096,70106)%N; (70108,70108)%N; (70113,70132)%N;
    (70144,70161)%N; (70163,70187)%N; (70272,70278)%N; (70280,70280)%N; (70282,70285)%N;
    (70287,70301)%N; (70303,70312)%N; (70320,70366)%N; (70384,70393)%N; (70405,70412)%N;
    (70415,70416)%N; (70419,70440)%N; (70442,70448)%N; (70450,70451)%N; (70453,70457)%N;
    (70461,70461)%N; (70480,70480)%N; (70493,70497)%N; (70656,70708)%N; (70727,70730)%N;
    (70736,70745)%N; (70751,70753)%N; (70784,70831)%N; (70852,70853)%N; (70855,70855)%N;
    (70864,70873)%N; (71040,71086)%N; (71128,71131)%N; (71168,71215)%N; (71236,71236)%N;
    (71248,71257)%N; (71296,71338)%N; (71352,71352)%N; (71360,71369)%N; (71424,71450)%N;
    (71472,71483)%N; (71488,71494)%N; (71680,71723)%N; (71840,71922)%N; (71935,71942)%N;
    (71945,71945)%N; (71948,71955)%N; (71957,71958)%N; (71960,71983)%N; (71999,71999)%N;
    (72001,72001)%N; (72016,72025)%N; (72096,72103)%N; (72106,72144)%N; (72161,72161)%N;
    (72163,72163)%N; (72192,72192)%N; (72203,72242)%N; (72250,72250)%N; (72272,72272)%N;
    (72284,72329)%N; (72349,72349)%N; (72368,72440)%N; (72704,72712)%N; (72714,72750)%N;
    (72768,72768)%N; (72784,72812)%N; (72818,72847)%N; (72960,72966)%N; (72968,72969)%N;
    (72971,73008)%N; (73030,73030)%N; (73040,73049)%N; (73056,73061)%N; (73063,73064)%N;
    (73066,73097)%N; (73112,73112)%N; (73120,73129)%N; (73440,73458)%N; (73648,73648)%N;
    (73664,73684)%N; (73728,74649)%N; (74752,74862)%N; (74880,75075)%N; (77712,77808)%N;
    (77824,78894)%N; (82944,83526)%N; (92160,92728)%N; (92736,92766)%N; (92768,92777)%N;
    (92784,92862)%N; (92864,92873)%N; (92880,92909)%N; (92928,92975)%N; (92992,92995)%N;
    (93008,93017)%N; (93019,93025)%N; (93027,93047)%N; (93053,93071)%N; (93760,93846)%N;
    (93952,94026)%N; (94032,94032)%N; (94099,94111)%N; (94176,94177)%N; (94179,94179)%N;
    (94208,100343)%N; (100352,101589)%N; (101632,101640)%N; (110576,110579)%N;
    (110581,110587)%N; (110589,110590)%N; (110592,110882)%N; (110928,110930)%N;
    (110948,110951)%N; (110960,111355)%N; (113664,113770)%N; (113776,113788)%N;
    (113792,113800)%N; (113808,113817)%N; (119520,119539)%N; (119648,119672)%N;
    (119808,119892)%N; (119894,119964)%N; (119966,119967)%N; (119970,119970)%N;
    (119973,119974)%N; (119977,119980)%N; (119982,119993)%N; (119995,119995)%N;
    (119997,120003)%N; (120005,120069)%N; (120071,120074)%N; (120077,120084)%N;
    (120086,120092)%N; (120094,120121)%N; (120123,120126)%N; (120128,120132)%N;
    (120134,120134)%N; (120138,120144)%N; (120146,120485)%N; (120488,120512)%N;
    (120514,120538)%N; (120540,120570)%N; (120572,120596)%N; (120598,120628)%N;
    (120630,120654)%N; (120656,120686)%N; (120688,120712)%N; (120714,120744)%N;
    (120746,120770)%N; (120772,120779)%N; (120782,120831)%N; (122624,122654)%N;
    (123136,123180)%N; (123191,123197)%N; (123200,123209)%N; (123214,123214)%N;
    (123536,123565)%N; (123584,123627)%N; (123632,123641)%N; (124896,124902)%N;
    (124904,124907)%N; (124909,124910)%N; (124912,124926)%N; (124928,125124)%N;
    (125127,125135)%N; (125184,125251)%N; (125259,125259)%N; (125264,125273)%N;
    (126065,126123)%N; (126125,126127)%N; (126129,126132)%N; (126209,126253)%N;
    (126255,126269)%N; (126464,126467)%N; (126469,126495)%N; (126497,126498)%N;
    (126500,126500)%N; (126503,126503)%N; (126505,126514)%N; (126516,126519)%N;
    (126521,126521)%N; (126523,126523)%N; (126530,126530)%N; (126535,126535)%N;
    (126537,126537)%N; (126539,126539)%N; (126541,126543)%N; (126545,126546)%N;
    (126548,126548)%N; (126551,126551)%N; (126553,126553)%N; (126555,126555)%N;
    (126557,126557)%N; (126559,126559)%N; (126561,126562)%N; (126564,126564)%N;
    (126567,126570)%N; (126572,126578)%N; (126580,126583)%N; (126585,126588)%N;
    (126590,126590)%N; (126592,126601)%N; (126603,126619)%N; (126625,126627)%N;
    (126629,126633)%N; (126635,126651)%N; (127232,127244)%N; (130032,130041)%N;
    (131072,173791)%N; (173824,177976)%N; (177984,178205)%N; (178208,183969)%N;
    (183984,191456)%N; (194560,195101)%N; (196608,201546)%N
  ].

Definition is_alnum (c : char) : bool :=
  in_range 48 57 c || in_range 65 90 c || in_range 97 122 c
  || ((128 <=? c)%N && existsb (fun r => in_range (fst r) (snd r) c) alnum_ranges).

(** [\w] on a [str] pattern: [Py_UNICODE_ISALNUM(ch) || ch == '_']. *)
Definition is_word (c : char) : bool := is_alnum c || (c =? 95)%N.

Fixpoint lstrip (s : text) : text :=
  match s with
  | c :: s' => if is_space c then lstrip s' else s
  | [] => []
  end.

Definition rstrip (s : text) : text := rev (lstrip (rev s)).

(** [str.strip()] with no argument. *)
Definition strip (s : text) : text := rstrip (lstrip s).

Fixpoint text_eqb (a b : text) : bool :=
  match a, b with
  | [], [] => true
  | x :: a', y :: b' => (x =? y)%N && text_eqb a' b'
  | _, _ => false
  end.

Fixpoint startswith (s p : text) : bool :=
  match p, s with
  | [], _ => true
  | x :: p', y :: s' => (x =? y)%N && startswith s' p'
  | _ :: _, [] => false
  end.

(** [s.endswith(suffix)]. *)
Definition endswith (s suffix : text) : bool :=
  startswith (rev s) (rev suffix).

End Text.
Import Text.

(* ================================================================== *)
(** ** The [re] fragment *)

Module Re.

(** One-character items: [.], [\s], [\w] and a literal character. *)
Inductive cset :=
| Dot
| Space
| Word
| Lit (c : char).

Definition cset_test (cs : cset) (c : char) : bool :=
  match cs with
  | Dot => negb (c =? NL)%N
  | Space => is_space c
  | Word => is_word c
  | Lit d => (c =? d)%N
  end.

(** [Star true r] is the greedy [r*], [Star false r] the lazy [r*?];
    [Opt r] is the greedy [r?]; [Group n r] is the n-th capturing group. *)
Inductive regex :=
| Eps
| Chr (cs : cset)
| Seq (r1 r2 : regex)
| Star (greedy : bool) (r : regex)
| Opt (r : regex)
| Group (n : nat) (r : regex).

Declare Scope re_scope.
Delimit Scope re_scope with re.
Bind Scope re_scope with regex.
Infix ";;" := Seq (at level 61, right associativity) : re_scope.

(** [r+] is one [r] followed by a greedy [r*]: same matches, tried in the
    same order. *)
Definition Plus (r : regex) : regex := (r ;; Star true r)%re.

Fixpoint lit (s : text) : regex :=
  match s with
  | [] => Eps
  | c :: s' => (Chr (Lit c) ;; lit s')%re
  end.

(** Captures: the latest binding of a group number is the current one. *)
Definition groups := list (nat * text).

Fixpoint get_group (n : nat) (g : groups) : option text :=
  match g with
  | [] => None
  | (i, t) :: g' => if Nat.eqb i n then Some t else get_group n g'
  end.

(** The characters consumed between the suffix [s] and its suffix [s1]. *)
Definition taken (s s1 : text) : text :=
  firstn (length s - length s1) s.

Definition answer := option (text * groups).
Definition cont := text -> groups -> answer.

(** The repetition loop of the matcher, for a sub-pattern whose matcher
    is [body].  Greedy: one more iteration is tried before the rest of the
    pattern; lazy: the rest of the pattern is tried first.  A further
    iteration has to consume a character (the engine refuses to repeat an
    iteration that did not move; the repeated items of the two patterns
    are one character or a whole comment line), so a counter started at
    the length of the input never runs out before the input does. *)
Fixpoint star_loop (body : text -> groups -> cont -> answer) (greedy : bool)
    (k : cont) (fuel : nat) (s : text) (g : groups) {struct fuel} : answer :=
  match fuel with
  | O => k s g
  | S fuel' =>
      let again s1 g1 :=
        if length s1 <? length s then star_loop body greedy k fuel' s1 g1
        else None in
      if greedy then
        match body s g again with
        | Some a => Some a
        | None => k s g
        end
      else
        match k s g with
        | Some a => Some a
        | None => body s g again
        end
  end.

(** The backtracking matcher, in continuation-passing style.  [run r s g k]
    matches [r] at the head of [s] with captures [g] and hands the rest of
    the input to [k]; when [k] fails the next alternative of [r] is tried,
    in the order of the [re] engine.  Captures travel with the
    continuation, so giving up an alternative also gives up the captures
    made in it. *)
Fixpoint run (r : regex) (s : text) (g : groups) (k : cont) {struct r} : answer :=
  match r with
  | Eps => k s g
  | Chr cs =>
      match s with
      | c :: s' => if cset_test cs c then k s' g else None
      | [] => None
      end
  | Seq r1 r2 => run r1 s g (fun s1 g1 => run r2 s1 g1 k)
  | Opt r1 =>
      match run r1 s g k with
      | Some a => Some a
      | None => k s g
      end
  | Group n r1 => run r1 s g (fun s1 g1 => k s1 ((n, taken s s1) :: g1))
  | Star greedy r1 => star_loop (run r1) greedy k (length s) s g
  end.

(** What a successful run of the matcher has done, as a relation:
    [matches r s g s1 g1] when [r] can consume the part of [s] before its
    suffix [s1], turning the captures [g] into [g1]. *)
Inductive matches : regex -> text -> groups -> text -> groups -> Prop :=
| M_eps s g : matches Eps s g s g
| M_chr cs c s g :
    cset_test cs c = true -> matches (Chr cs) (c :: s) g s g
| M_seq r1 r2 s g s1 g1 s2 g2 :
    matches r1 s g s1 g1 -> matches r2 s1 g1 s2 g2 ->
    matches (Seq r1 r2) s g s2 g2
| M_opt_some r s g s1 g1 :
    matches r s g s1 g1 -> matches (Opt r) s g s1 g1
| M_opt_none r s g : matches (Opt r) s g s g
| M_group n r s g s1 g1 :
    matches r s g s1 g1 ->
    matches (Group n r) s g s1 ((n, taken s s1) :: g1)
| M_star_stop b r s g : matches (Star b r) s g s g
| M_star_more b r s g s1 g1 s2 g2 :
    matches r s g s1 g1 -> length s1 < length s ->
    matches (Star b r) s1 g1 s2 g2 ->
    matches (Star b r) s g s2 g2.

(** [pattern.match] at the head of [s]: the rest of the input after the
    match, and the captures. *)
Definition match_at (r : regex) (s : text) : answer :=
  run r s [] (fun s' g => Some (s', g)).

(** A match object: [start()], [end()] and the captured groups. *)
Record rmatch := { m_start : nat; m_end : nat; m_groups : groups }.

(** [match.group(n)]; [None] when the group took no part in the match. *)
Definition group (n : nat) (m : rmatch) : option text :=
  get_group n (m_groups m).

(** [re.finditer]: scan left to right; a match found at a position
    consumes its characters, and the scan resumes where it ended.  [pos] is
    the index of the head of [s] in the whole text, [skip] the number of
    characters still covered by the previous match.  After a match of
    length zero the scan moves one character on; the two patterns of the
    script never match the empty text, as shown below. *)
Fixpoint finditer_from (r : regex) (pos skip : nat) (s : text) : list rmatch :=
  match skip with
  | S skip' =>
      match s with
      | [] => []
      | _ :: s' => finditer_from r (S pos) skip' s'
      end
  | O =>
      match match_at r s with
      | Some (rest, g) =>
          let n := length s - length rest in
          {| m_start := pos; m_end := pos + n; m_groups := g |} ::
          match s with
          | [] => []
          | _ :: s' => finditer_from r (S pos) (n - 1) s'
          end
      | None =>
          match s with
          | [] => []
          | _ :: s' => finditer_from r (S pos) 0 s'
          end
      end
  end.

Definition finditer (r : regex) (s : text) : list rmatch :=
  finditer_from r 0 0 s.

End Re.
Import Re.

(* ================================================================== *)
(** ** [extract_go_symbols] *)

Module Extract.

Open Scope re_scope.

Definition ch (a : ascii) : char := N_of_ascii a.

(** [(//.*\n)*] *)
Definition comment_lines : regex :=
  Star true (Group 1 (lit (txt "//") ;; Star true (Chr Dot) ;; Chr (Lit NL))).

(** [(//.*\n)*\s*func\s+(\(.*?\)\s+)?(\w+)\s*\((.*?)\)] *)
Definition func_re : regex :=
  comment_lines ;; Star true (Chr Space) ;; lit (txt "func") ;;
  Plus (Chr Space) ;;
  Opt (Group 2 (Chr (Lit (ch "(")) ;; Star false (Chr Dot) ;;
                Chr (Lit (ch ")")) ;; Plus (Chr Space))) ;;
  Group 3 (Plus (Chr Word)) ;; Star true (Chr Space) ;;
  Chr (Lit (ch "(")) ;; Group 4 (Star false (Chr Dot)) ;; Chr (Lit (ch ")")).

(** [(//.*\n)*\s*type\s+(\w+)\s+struct\s*{] *)
Definition struct_re : regex :=
  comment_lines ;; Star true (Chr Space) ;; lit (txt "type") ;;
  Plus (Chr Space) ;; Group 2 (Plus (Chr Word)) ;; Plus (Chr Space) ;;
  lit (txt "struct") ;; Star true (Chr Space) ;; Chr (Lit (ch "{")).

(** The values stored in the dictionaries: a [str], or [None] when a
    group took no part in the match. *)
Inductive pyval :=
| PyNone
| PyStr (t : text).

Definition group_val (n : nat) (m : rmatch) : pyval :=
  match group n m with
  | Some t => PyStr t
  | None => PyNone
  end.

(** The dictionary appended for a match; the keys are fixed, so it is a
    record.  The key ["type"] is the field [type_]. *)
Record symbol := {
  type_ : text;
  name : pyval;
  params : pyval;
  doc : text;
  source_file : text
}.

(** [match.group(1).strip()] when group 1 is neither [None] nor empty,
    the empty string otherwise. *)
Definition doc_of (m : rmatch) : text :=
  match group 1 m with
  | Some ((_ :: _) as t) => strip t
  | _ => []
  end.

Definition func_symbol (file_path : text) (m : rmatch) : symbol :=
  {| type_ := txt "function";
     name := group_val 3 m;
     params := group_val 4 m;
     doc := doc_of m;
     source_file := file_path |}.

Definition struct_symbol (file_path : text) (m : rmatch) : symbol :=
  {| type_ := txt "struct";
     name := group_val 2 m;
     params := PyStr [];
     doc := doc_of m;
     source_file := file_path |}.

Definition func_matches (content : text) : list rmatch := finditer func_re content.
Definition struct_matches (content : text) : list rmatch := finditer struct_re content.

(** The body of [extract_go_symbols] once [content] has been read:
    [results] after the two loops. *)
Definition symbols_of (file_path content : text) : list symbol :=
  map (func_symbol file_path) (func_matches content)
  ++ map (struct_symbol file_path) (struct_matches content).

End Extract.
Import Extract.


(* ================================================================== *)
(** ** [json.dump] *)

Module Json.

#[local] Unset Elimination Schemes.
Inductive json :=
| JNull
| JBool (b : bool)
| JStr (t : text)
| JArr (items : list json)
| JObj (members : list (text * json)).
#[local] Set Elimination Schemes.

Definition hex_digit (n : N) : char :=
  if (n <? 10)%N then (48 + n)%N else (87 + n)%N.

(** ['\\u{0:04x}'.format(n)] *)
Definition escape_u (n : N) : text :=
  [92; 117; hex_digit (N.land (N.shiftr n 12) 15);
   hex_digit (N.land (N.shiftr n 8) 15);
   hex_digit (N.land (N.shiftr n 4) 15); hex_digit (N.land n 15)]%N.

(** [json.encoder.py_encode_basestring_ascii], one character: the short
    escapes of [ESCAPE_DCT], printable ASCII as it is, [\uXXXX] for the
    rest, as a surrogate pair above the basic plane. *)
Definition escape_char (c : char) : text :=
  if (c =? 34)%N then [92; 34]%N           (* quote *)
  else if (c =? 92)%N then [92; 92]%N      (* backslash *)
  else if (c =? 10)%N then [92; 110]%N     (* line feed *)
  else if (c =? 13)%N then [92; 114]%N     (* carriage return *)
  else if (c =? 9)%N then [92; 116]%N      (* tab *)
  else if (c =? 12)%N then [92; 102]%N     (* form feed *)
  else if (c =? 8)%N then [92; 98]%N       (* backspace *)
  else if in_range 32 126 c then [c]
  else if (c <? 65536)%N then escape_u c
  else
    let n := (c - 65536)%N in
    escape_u (N.lor 55296 (N.land (N.shiftr n 10) 1023))
    ++ escape_u (N.lor 56320 (N.land n 1023)).

Definition encode_string (t : text) : text :=
  34%N :: flat_map escape_char t ++ [34%N].

Fixpoint join (sep : text) (l : list text) : text :=
  match l with
  | [] => []
  | [x] => x
  | x :: l' => x ++ sep ++ join sep l'
  end.

(** ['\n' + indent * level] with [indent = '  ']. *)
Definition newline_indent (level : nat) : text :=
  NL :: repeat 32%N (2 * level).

(** [JSONEncoder(indent=2).iterencode], joined: item separator [','],
    key separator [': '], containers opened on a line of their own unless
    empty. *)
Fixpoint encode (level : nat) (v : json) : text :=
  match v with
  | JNull => txt "null"
  | JBool true => txt "true"
  | JBool false => txt "false"
  | JStr t => encode_string t
  | JArr [] => txt "[]"
  | JArr items =>
      txt "[" ++ newline_indent (S level)
      ++ join (txt "," ++ newline_indent (S level))
              (map (encode (S level)) items)
      ++ newline_indent level ++ txt "]"
  | JObj [] => txt "{}"
  | JObj members =>
      txt "{" ++ newline_indent (S level)
      ++ join (txt "," ++ newline_indent (S level))
              (map (fun kv : text * json => let (k, x) := kv in
                              encode_string k ++ txt ": " ++ encode (S level) x)
                   members)
      ++ newline_indent level ++ txt "}"
  end.

Definition json_of_pyval (v : pyval) : json :=
  match v with
  | PyNone => JNull
  | PyStr t => JStr t
  end.

(** A dictionary is written with its keys in insertion order. *)
Definition json_of_symbol (r : symbol) : json :=
  JObj [(txt "type", JStr (type_ r));
        (txt "name", json_of_pyval (name r));
        (txt "params", json_of_pyval (params r));
        (txt "doc", JStr (doc r));
        (txt "source_file", JStr (source_file r))].

(** [json.dump(go_chunks, f, indent=2)]: the text written to [f]. *)
Definition json_dump (go_chunks : list symbol) : text :=
  encode 0 (JArr (map json_of_symbol go_chunks)).

(** *** Reading a document back

    The reader follows [json.loads] ([json.decoder] and [json.scanner]):
    white space is blank, tab, line feed and carriage return; strings are
    read in strict mode; a high surrogate escape followed by a low
    surrogate escape is one character.  Numbers are left out: the
    documents written by the script hold none. *)

Definition is_json_ws (c : char) : bool :=
  (c =? 32)%N || (c =? 9)%N || (c =? 10)%N || (c =? 13)%N.

Fixpoint skip_ws (s : text) : text :=
  match s with
  | c :: s' => if is_json_ws c then skip_ws s' else s
  | [] => []
  end.

Definition hex_value (c : char) : option N :=
  if in_range 48 57 c then Some (c - 48)%N
  else if in_range 97 102 c then Some (c - 87)%N
  else if in_range 65 70 c then Some (c - 55)%N
  else None.

(** [int(esc, 16)] for the four characters after a backslash and u. *)
Definition hex4 (a b c d : char) : option N :=
  match hex_value a, hex_value b, hex_value c, hex_value d with
  | Some x, Some y, Some z, Some w => Some (x * 4096 + y * 256 + z * 16 + w)%N
  | _, _, _, _ => None
  end.

(** The one-letter escapes of [BACKSLASH]. *)
Definition unescape (e : char) : option char :=
  if (e =? 34)%N then Some 34%N
  else if (e =? 92)%N then Some 92%N
  else if (e =? 47)%N then Some 47%N
  else if (e =? 98)%N then Some 8%N
  else if (e =? 102)%N then Some 12%N
  else if (e =? 110)%N then Some 10%N
  else if (e =? 114)%N then Some 13%N
  else if (e =? 116)%N then Some 9%N
  else None.

Definition is_high_surrogate (c : N) : bool := in_range 55296 56319 c.
Definition is_low_surrogate (c : N) : bool := in_range 56320 57343 c.

(** [0x10000 + (((uni - 0xd800) << 10) | (uni2 - 0xdc00))] *)
Definition join_surrogates (uni uni2 : N) : N :=
  (65536 + N.lor (N.shiftl (uni - 55296) 10) (uni2 - 56320))%N.

Definition cons_char (c : char) (r : option (text * text)) : option (text * text) :=
  match r with
  | Some (t, rest) => Some (c :: t, rest)
  | None => None
  end.

(** [scanstring], from just after the opening quote: the string and what
    follows its closing quote. *)
Fixpoint scan_string (s : text) : option (text * text) :=
  match s with
  | [] => None
  | c :: s1 =>
      if (c =? 34)%N then Some ([], s1)
      else if (c <? 32)%N then None
      else if (c =? 92)%N then
        match s1 with
        | [] => None
        | e :: s2 =>
            if (e =? 117)%N then
              match s2 with
              | h1 :: h2 :: h3 :: h4 :: s6 =>
                  match hex4 h1 h2 h3 h4 with
                  | None => None
                  | Some uni =>
                      if is_high_surrogate uni then
                        match s6 with
                        | b :: u :: s8 =>
                            if (b =? 92)%N && (u =? 117)%N then
                              match s8 with
                              | l1 :: l2 :: l3 :: l4 :: s12 =>
                                  match hex4 l1 l2 l3 l4 with
                                  | None => None
                                  | Some uni2 =>
                                      if is_low_surrogate uni2 then
                                        cons_char (join_surrogates uni uni2)
                                                  (scan_string s12)
                                      else cons_char uni (scan_string s6)
                                  end
                              | _ => None
                              end
                            else cons_char uni (scan_string s6)
                        | _ => cons_char uni (scan_string s6)
                        end
                      else cons_char uni (scan_string s6)
                  end
              | _ => None
              end
            else
              match unescape e with
              | Some x => cons_char x (scan_string s2)
              | None => None
              end
        end
      else cons_char c (scan_string s1)
  end.

(** The loop of [JSONArray] after the first value position: values
    separated by commas, up to the closing bracket.  [pv] reads one value,
    [n] bounds the number of values. *)
Fixpoint parse_items (pv : text -> option (json * text)) (n : nat) (s : text)
  : option (list json * text) :=
  match n with
  | O => None
  | S n' =>
      match pv s with
      | None => None
      | Some (v, r) =>
          match skip_ws r with
          | c :: r1 =>
              if (c =? 93)%N then Some ([v], r1)
              else if (c =? 44)%N then
                match parse_items pv n' (skip_ws r1) with
                | Some (vs, r2) => Some (v :: vs, r2)
                | None => None
                end
              else None
          | [] => None
          end
      end
  end.

(** The loop of [JSONObject], from the opening quote of a key. *)
Fixpoint parse_members (pv : text -> option (json * text)) (n : nat) (s : text)
  : option (list (text * json) * text) :=
  match n with
  | O => None
  | S n' =>
      match s with
      | q :: s1 =>
          if (q =? 34)%N then
            match scan_string s1 with
            | None => None
            | Some (key, r) =>
                match skip_ws r with
                | c :: r1 =>
                    if (c =? 58)%N then
                      match pv (skip_ws r1) with
                      | None => None
                      | Some (v, r2) =>
                          match skip_ws r2 with
                          | d :: r3 =>
                              if (d =? 125)%N then Some ([(key, v)], r3)
                              else if (d =? 44)%N then
                                match parse_members pv n' (skip_ws r3) with
                                | Some (ms, r4) => Some ((key, v) :: ms, r4)
                                | None => None
                                end
                              else None
                          | [] => None
                          end
                      end
                    else None
                | [] => None
                end
            end
          else None
      | [] => None
      end
  end.

(** [scan_once] at a position where a value starts. *)
Fixpoint parse_value (fuel : nat) (s : text) : option (json * text) :=
  match fuel with
  | O => None
  | S fuel' =>
      match s with
      | [] => None
      | c :: s1 =>
          if (c =? 34)%N then
            match scan_string s1 with
            | Some (t, r) => Some (JStr t, r)
            | None => None
            end
          else if (c =? 123)%N then
            match skip_ws s1 with
            | d :: s2 =>
                if (d =? 125)%N then Some (JObj [], s2)
                else
                  match parse_members (parse_value fuel') fuel' (d :: s2) with
                  | Some (ms, r) => Some (JObj ms, r)
                  | None => None
                  end
            | [] => None
            end
          else if (c =? 91)%N then
            match skip_ws s1 with
            | d :: s2 =>
                if (d =? 93)%N then Some (JArr [], s2)
                else
                  match parse_items (parse_value fuel') fuel' (d :: s2) with
                  | Some (vs, r) => Some (JArr vs, r)
                  | None => None
                  end
            | [] => None
            end
          else if startswith s (txt "null") then Some (JNull, skipn 4 s)
          else if startswith s (txt "true") then Some (JBool true, skipn 4 s)
          else if startswith s (txt "false") then Some (JBool false, skipn 5 s)
          else None
      end
  end.

(** [json.loads]: one value, white space around it, nothing else.  Every
    nested value starts at least one character further, so the length of
    the document bounds the depth and the number of items. *)
Definition json_loads (s : text) : option json :=
  match parse_value (S (length s)) (skip_ws s) with
  | Some (v, r) =>
      match skip_ws r with
      | [] => Some v
      | _ :: _ => None
      end
  | None => None
  end.

(** What reading back gives for a string that was written: a high
    surrogate followed by a low one comes back as one character, and a
    character above the basic plane as the character its surrogate pair
    stands for. *)
Definition pair_of (c : char) : N * N :=
  let n := (c - 65536)%N in
  (N.lor 55296 (N.land (N.shiftr n 10) 1023), N.lor 56320 (N.land n 1023)).

Definition reread_char (c : char) : char :=
  if (c <? 65536)%N then c
  else join_surrogates (fst (pair_of c)) (snd (pair_of c)).

Fixpoint reread (t : text) : text :=
  match t with
  | [] => []
  | c :: t' =>
      if is_high_surrogate c then
        match t' with
        | d :: t'' =>
            if is_low_surrogate d then join_surrogates c d :: reread t''
            else c :: reread t'
        | [] => [c]
        end
      else reread_char c :: reread t'
  end.

Definition reread_pyval (v : pyval) : json :=
  match v with
  | PyNone => JNull
  | PyStr t => JStr (reread t)
  end.

(** The object a record comes back as. *)
Definition reread_symbol (r : symbol) : json :=
  JObj [(txt "type", JStr (reread (type_ r)));
        (txt "name", reread_pyval (name r));
        (txt "params", reread_pyval (params r));
        (txt "doc", JStr (reread (doc r)));
        (txt "source_file", JStr (reread (source_file r)))].

(** The keys of an object, and the string under a key. *)
Definition keys_of (v : json) : option (list text) :=
  match v with
  | JObj members => Some (map fst members)
  | _ => None
  end.

Fixpoint lookup (key : text) (members : list (text * json)) : option json :=
  match members with
  | [] => None
  | (k, v) :: rest => if text_eqb k key then Some v else lookup key rest
  end.

Definition string_at (key : text) (v : json) : option text :=
  match v with
  | JObj members =>
      match lookup key members with
      | Some (JStr t) => Some t
      | _ => None
      end
  | _ => None
  end.

End Json.
Import Json.

(* ================================================================== *)
(** ** [os.walk] and the top-level script *)

Module Walk.

(** The tree under a directory.  A file carries what
    [open(path, 'r', encoding='utf-8').read()] returns for it, [None] when
    opening, reading or decoding raises.  A directory carries its listing,
    [None] when [scandir] raises [OSError] on it or when it is a symbolic
    link, which [os.walk] lists among the directories and does not enter. *)
#[local] Unset Elimination Schemes.
Inductive entry :=
| File (fname : text) (data : option text)
| Dir (dname : text) (listing : option (list entry)).
#[local] Set Elimination Schemes.

(** [posixpath.join(a, b)] *)
Definition path_join (a b : text) : text :=
  if startswith b (txt "/") then b
  else match a with
       | [] => b
       | _ => if endswith a (txt "/") then a ++ b else a ++ txt "/" ++ b
       end.

Fixpoint dirs_of (es : list entry) : list text :=
  match es with
  | [] => []
  | Dir d _ :: es' => d :: dirs_of es'
  | File _ _ :: es' => dirs_of es'
  end.

Fixpoint files_of (es : list entry) : list (text * option text) :=
  match es with
  | [] => []
  | File f data :: es' => (f, data) :: files_of es'
  | Dir _ _ :: es' => files_of es'
  end.

(** One item of [os.walk]: [(root, dirs, files)]; each file name comes
    with what reading it will give. *)
Definition triple := (text * list text * list (text * option text))%type.

(** [os.walk] below an entry of the directory [parent], top-down. *)
Fixpoint walk_entry (parent : text) (e : entry) : list triple :=
  match e with
  | File _ _ => []
  | Dir _ None => []
  | Dir d (Some es) =>
      let top := path_join parent d in
      (top, dirs_of es, files_of es) :: flat_map (walk_entry top) es
  end.

(** [os.walk(top)] with the default [onerror=None]: a directory that
    cannot be listed is passed over in silence, the top one included. *)
Definition os_walk (top : text) (listing : option (list entry)) : list triple :=
  match listing with
  | None => []
  | Some es => (top, dirs_of es, files_of es) :: flat_map (walk_entry top) es
  end.

(** What the script meets outside itself: the tree at [./backend] ([None]
    when it is missing or unreadable) and whether
    [kubestellar_go_chunks.json] can be opened for writing. *)
Record world := { backend : option (list entry); can_write : bool }.

Inductive error :=
| ReadError (file_path : text)
| WriteError.

(** An uncaught exception ends the script. *)
Inductive result (A : Type) :=
| Ok (a : A)
| Raise (e : error).
Arguments Ok {A} a.
Arguments Raise {A} e.

Definition bind {A B} (m : result A) (f : A -> result B) : result B :=
  match m with
  | Ok a => f a
  | Raise e => Raise e
  end.

Notation "x <- m ;; f" := (bind m (fun x => f))
  (at level 61, m at next level, right associativity).

Definition backend_dir : text := txt "./backend".

(** [extract_go_symbols(file_path)]; [data] is the outcome of reading the
    file at [file_path]. *)
Definition extract_go_symbols (file_path : text) (data : option text)
  : result (list symbol) :=
  match data with
  | Some content => Ok (symbols_of file_path content)
  | None => Raise (ReadError file_path)
  end.

(** The inner loop, [for file in files]. *)
Fixpoint scan_files (root : text) (files : list (text * option text))
    (go_chunks : list symbol) : result (list symbol) :=
  match files with
  | [] => Ok go_chunks
  | (file, data) :: files' =>
      if endswith file (txt ".go") then
        let file_path := path_join root file in
        found <- extract_go_symbols file_path data ;;
        scan_files root files' (go_chunks ++ found)
      else scan_files root files' go_chunks
  end.

(** The outer loop, [for root, _, files in os.walk(backend_dir)]. *)
Fixpoint scan_walk (items : list triple) (go_chunks : list symbol)
  : result (list symbol) :=
  match items with
  | [] => Ok go_chunks
  | (root, _, files) :: items' =>
      chunks <- scan_files root files go_chunks ;;
      scan_walk items' chunks
  end.

Definition collect (w : world) : result (list symbol) :=
  scan_walk (os_walk backend_dir (backend w)) [].

(** How a run ends: the script reaches its end after writing the output
    file (exit status 0), or dies on an exception with nothing written
    (exit status 1). *)
Inductive outcome :=
| Written (output : text)
| Crashed (e : error).

Definition main (w : world) : outcome :=
  match collect w with
  | Raise e => Crashed e
  | Ok go_chunks =>
      if can_write w then Written (json_dump go_chunks) else Crashed WriteError
  end.

Definition exit_status (o : outcome) : nat :=
  match o with
  | Written _ => 0
  | Crashed _ => 1
  end.

Definition output_file (o : outcome) : option text :=
  match o with
  | Written t => Some t
  | Crashed _ => None
  end.

End Walk.
Import Walk.


(* ================================================================== *)
(** ** Vocabulary of the statements *)

(** The code points [is_space] accepts. *)
Definition space_chars : list char :=
  [9; 10; 11; 12; 13; 28; 29; 30; 31; 32; 133; 160; 5760; 8192; 8193; 8194;
   8195; 8196; 8197; 8198; 8199; 8200; 8201; 8202; 8232; 8233; 8239; 8287;
   12288]%N.

(** [stops cs s]: a repetition of [cs] cannot go on at the head of [s]. *)
Definition stops (cs : cset) (s : text) : bool :=
  match s with
  | [] => true
  | c :: _ => negb (cset_test cs c)
  end.

Definition all_in (cs : cset) (s : text) : bool := forallb (cset_test cs) s.

(** The continuation the repetition loop gives to one more iteration. *)
Definition again_with (body : text -> groups -> cont -> answer) (b : bool)
    (k : cont) (fuel : nat) (s : text) : cont :=
  fun s1 g1 =>
    if length s1 <? length s then star_loop body b k fuel s1 g1 else None.

(** A full-line comment with text [c], and a block of such lines. *)
Definition comment_line (c : text) : text := txt "//" ++ c ++ [NL].

Definition comment_block (lines : list text) : text :=
  concat (map comment_line lines).

(** The captures of group 1 after a block of comment lines, latest first. *)
Definition comment_groups (lines : list text) : groups :=
  rev (map (fun c => (1, comment_line c)) lines).

Definition RPAREN : char := 41%N.

(** Sub-patterns without a capturing group. *)
Fixpoint group_free (r : regex) : bool :=
  match r with
  | Eps | Chr _ => true
  | Seq r1 r2 => group_free r1 && group_free r2
  | Star _ r1 | Opt r1 => group_free r1
  | Group _ _ => false
  end.

(** The files the top-level loop meets, in order: the directory they were
    listed in, their name, and what reading them gives. *)
Definition files_in (items : list triple) : list (text * text * option text) :=
  flat_map (fun it : triple =>
              let '(root, _, files) := it in
              map (fun fd : text * option text => (root, fst fd, snd fd)) files)
           items.

Definition walked_files (w : world) : list (text * text * option text) :=
  files_in (os_walk backend_dir (backend w)).

(** What one walked file adds to [go_chunks] in a run that reaches its
    end. *)
Definition contributes (f : text * text * option text) (part : list symbol)
  : Prop :=
  let '(root, file, data) := f in
  if endswith file (txt ".go") then
    exists content,
      data = Some content /\
      part = symbols_of (path_join root file) content /\
      length part
      = length (func_matches content) + length (struct_matches content)
  else part = [].

(** The offsets in the text at which the matches behind the records of
    [symbols_of] start, record by record. *)
Definition match_positions (content : text) : list nat :=
  map m_start (func_matches content) ++ map m_start (struct_matches content).

(** Sample inputs. *)
Definition greeter_go : text := txt "// Greets the user
func Hello(name string) string { ... }
type Config struct { ... }
".

Definition greeter_go_unterminated : text := txt "// Greets the user
func Hello(name string) string { ... }
type Config struct { ... }".

Definition two_comments_go : text := txt "// Add returns the sum.
// It never overflows.
func Add(a int, b int) int {
".

Definition blank_line_go : text := txt "// Version of the wire format.

func Version() int {
".

Definition struct_first_go : text := txt "type Point struct {
}
func Origin() Point {
".

Definition callback_go : text := txt "func Apply(f func(int) int, x int) int {
".

Definition commented_out_go : text := txt "// func Foo(x int) {
".

Definition sample_tree : list entry :=
  [ File (txt "main.go") (Some greeter_go);
    File (txt "README.md") (Some (txt "func Readme(x) and type T struct {"));
    Dir (txt "pkg")
      (Some [ File (txt "point.go") (Some struct_first_go);
              File (txt "notes.txt") None ]);
    Dir (txt "vendor") None ].

Definition sample_world : world :=
  {| backend := Some sample_tree; can_write := true |}.

Definition no_backend : world := {| backend := None; can_write := true |}.

Definition sample_chunks : list symbol :=
  Eval vm_compute in
    match collect sample_world with
    | Ok chunks => chunks
    | Raise _ => []
    end.

Definition callback_match : rmatch :=
  Eval vm_compute in
    hd {| m_start := 0; m_end := 0; m_groups := [] |}
       (func_matches callback_go).

(** The numbers below [n], for checks by enumeration. *)
Fixpoint count_from (i : N) (len : nat) : list N :=
  match len with
  | O => []
  | S len' => i :: count_from (N.succ i) len'
  end.

Definition below (n : N) : list N := count_from 0 (N.to_nat n).

(** [\uXXXX] reads back as the number it was written from. *)
Definition escape_u_reads_back (n : N) : bool :=
  match escape_u n with
  | [b; u; h1; h2; h3; h4] =>
      (b =? 92)%N && (u =? 117)%N &&
      match hex4 h1 h2 h3 h4 with
      | Some m => (m =? n)%N
      | None => false
      end
  | _ => false
  end.

(** The two halves written for a ten-bit pair are a high and a low
    surrogate. *)
Definition surrogate_halves_ok (x : N) : bool :=
  is_high_surrogate (N.lor 55296 x) && is_low_surrogate (N.lor 56320 x).

(** What [scan_string] does after a high surrogate escape [uni], with
    [s6] the text after it and [scan] the scan of the rest. *)
Definition lookahead (scan : text -> option (text * text)) (uni : N) (s6 : text)
  : option (text * text) :=
  match s6 with
  | b :: u :: s8 =>
      if (b =? 92)%N && (u =? 117)%N then
        match s8 with
        | l1 :: l2 :: l3 :: l4 :: s12 =>
            match hex4 l1 l2 l3 l4 with
            | None => None
            | Some uni2 =>
                if is_low_surrogate uni2 then
                  cons_char (join_surrogates uni uni2) (scan s12)
                else cons_char uni (scan s6)
            end
        | _ => None
        end
      else cons_char uni (scan s6)
  | _ => cons_char uni (scan s6)
  end.

(** The members of the dictionary of a record, in order, and the text
    [json.dump] writes for one member at a nesting level. *)
Definition fields (r : symbol) : list (text * pyval) :=
  [(txt "type", PyStr (type_ r)); (txt "name", name r);
   (txt "params", params r); (txt "doc", PyStr (doc r));
   (txt "source_file", PyStr (source_file r))].

Definition member_text (level : nat) (kv : text * pyval) : text :=
  encode_string (fst kv) ++ txt ": " ++ encode level (json_of_pyval (snd kv)).

Definition reread_member (kv : text * pyval) : text * json :=
  (reread (fst kv), reread_pyval (snd kv)).

Definition five_keys : list text :=
  [txt "type"; txt "name"; txt "params"; txt "doc"; txt "source_file"].

(** What the claim asks of an object read back from the output. *)
Definition well_formed_object (o : json) : Prop :=
  keys_of o = Some five_keys
  /\ (exists n, string_at (txt "name") o = Some n /\ n <> [])
  /\ (exists f, string_at (txt "source_file") o = Some f /\ f <> []).

Definition sample_output : text :=
  Eval vm_compute in json_dump sample_chunks.

(** The characters a [str] holds after decoding UTF-8, or a file name
    with undecodable bytes escaped as lone low surrogates: below
    [0x110000] and no high surrogate. *)
Definition decoded_char (c : char) : bool :=
  (c <? 1114112)%N && negb (is_high_surrogate c).

Definition decoded_pyval (v : pyval) : bool :=
  match v with
  | PyNone => true
  | PyStr t => forallb decoded_char t
  end.

Definition decoded_symbol (r : symbol) : bool :=
  forallb decoded_char (type_ r) && decoded_pyval (name r)
  && decoded_pyval (params r) && forallb decoded_char (doc r)
  && forallb decoded_char (source_file r).

(** A ten-bit half sits unchanged above a surrogate base. *)
Definition half_reads_back (x : N) : bool :=
  (N.lor 55296 x - 55296 =? x)%N && (N.lor 56320 x - 56320 =? x)%N.

(** A walked file the run can get past: not a [.go] file, or readable. *)
Definition passable (f : text * text * option text) : bool :=
  let '(_, file, data) := f in
  negb (endswith file (txt ".go"))
  || match data with Some _ => true | None => false end.

(* ================================================================== *)
(** ** Further vocabulary *)

(** [a] ends before [b] starts. *)
Definition ends_before (a b : rmatch) : Prop := m_end a <= m_start b.

(** A match that covers at least one character and lies inside a text of
    length [len]. *)
Definition proper_span (len : nat) (m : rmatch) : Prop :=
  m_start m < m_end m /\ m_end m <= len.

(** The receiver clause of a method, [(recv)] and the white space after
    it, when group 2 took part in a match; nothing otherwise. *)
Definition receiver_ok (part : text) (g2 : groups) : Prop :=
  (part = [] /\ g2 = [])
  \/ (exists recv sp2,
        part = txt "(" ++ recv ++ txt ")" ++ sp2 /\
        all_in Dot recv = true /\ all_in Space sp2 = true /\ sp2 <> [] /\
        g2 = [(2, part)]).

(** The [doc] a block of comment lines gives: its last line, trimmed. *)
Definition block_doc (lines : list text) : text :=
  match rev lines with
  | [] => []
  | c :: _ => strip (comment_line c)
  end.

(** [w in s] for Python strings: [w] starts at some position of [s]. *)
Fixpoint contains (s w : text) : bool :=
  startswith s w ||
  match s with
  | [] => false
  | _ :: s' => contains s' w
  end.

Definition sample_record : symbol :=
  Eval vm_compute in
    hd {| type_ := []; name := PyNone; params := PyNone; doc := [];
          source_file := [] |}
       (symbols_of (txt "./backend/main.go") greeter_go).

Definition sample_func_match : rmatch :=
  Eval vm_compute in
    hd {| m_start := 0; m_end := 0; m_groups := [] |}
       (func_matches greeter_go).

Definition sample_struct_match : rmatch :=
  Eval vm_compute in
    hd {| m_start := 0; m_end := 0; m_groups := [] |}
       (struct_matches greeter_go).

Definition no_decl_go : text := txt "package main

var Version = 1
".

Definition method_go : text := txt "// Area of the square.
func (s *Square) Area(unit string) int {
".

(** The characters of the output file: line feed and printable ASCII. *)
Definition is_output_char (c : char) : bool :=
  (c =? NL)%N || in_range 32 126 c.

Definition plain_text (t : text) : bool := forallb is_output_char t.

(** The records a walked file gives when it can be read. *)
Definition part_of (f : text * text * option text) : list symbol :=
  let '(root, file, data) := f in
  if endswith file (txt ".go") then
    match data with
    | Some content => symbols_of (path_join root file) content
    | None => []
    end
  else [].

(** The path of the first walked [.go] file that cannot be read. *)
Fixpoint first_unreadable (fs : list (text * text * option text)) : option text :=
  match fs with
  | [] => None
  | (root, file, data) :: fs' =>
      if endswith file (txt ".go") then
        match data with
        | Some _ => first_unreadable fs'
        | None => Some (path_join root file)
        end
      else first_unreadable fs'
  end.

(** The two loops of the script as one loop over the walked files. *)
Fixpoint scan_flat (fs : list (text * text * option text))
    (go_chunks : list symbol) : result (list symbol) :=
  match fs with
  | [] => Ok go_chunks
  | (root, file, data) :: fs' =>
      if endswith file (txt ".go") then
        found <- extract_go_symbols (path_join root file) data ;;
        scan_flat fs' (go_chunks ++ found)
      else scan_flat fs' go_chunks
  end.

Definition broken_world : world :=
  {| backend :=
       Some [ File (txt "main.go") (Some greeter_go);
              Dir (txt "pkg")
                (Some [ File (txt "locked.go") None;
                        File (txt "point.go") (Some struct_first_go) ]) ];
     can_write := true |}.

Definition decoded_text (t : text) : bool := forallb decoded_char t.

(** A walked file whose directory path, name and text are decoded text;
    nothing is asked of the files the script does not read. *)
Definition decoded_file (f : text * text * option text) : bool :=
  let '(root, file, data) := f in
  negb (endswith file (txt ".go"))
  || (decoded_text root && decoded_text file
      && match data with
         | Some content => decoded_text content
         | None => true
         end).

(** File and directory names as [scandir] gives them: no slash inside. *)
Definition no_slash (n : text) : bool :=
  forallb (fun c => negb (c =? 47)%N) n.

Fixpoint entry_names_ok (e : entry) : bool :=
  match e with
  | File f _ => no_slash f
  | Dir d None => no_slash d
  | Dir d (Some es) => no_slash d && forallb entry_names_ok es
  end.

Definition names_ok (w : world) : bool :=
  match backend w with
  | None => true
  | Some es => forallb entry_names_ok es
  end.

(** A directory path of the walk: the root itself or a path below it. *)
Definition under_backend (root : text) : Prop :=
  root = backend_dir \/ startswith root (txt "./backend/") = true.

(** *** The tree and the walk

    [os.walk] of CPython 3.11 is a recursive generator: it holds one
    interpreter frame per nested directory, and with the default recursion
    limit of 1000 a walk nested deeper than that dies with
    [RecursionError].  [walk_depth] counts the nested calls of a walk; the
    statements that say what a walk goes through are made for trees
    within [walk_depth_limit], chosen well inside that limit. *)
Fixpoint entry_depth (e : entry) : nat :=
  match e with
  | File _ _ => 0
  | Dir _ None => 1
  | Dir _ (Some es) => S (list_max (map entry_depth es))
  end.

Definition walk_depth (w : world) : nat :=
  match backend w with
  | None => 1
  | Some es => S (list_max (map entry_depth es))
  end.

Definition walk_depth_limit : nat := 900.

(** The files below an entry of the directory [dir], each with the path
    of the directory that lists it, entry by entry in listing order.
    Directories that cannot be listed hide what they hold. *)
Fixpoint files_below (dir : text) (e : entry) : list (text * text * option text) :=
  match e with
  | File f data => [(dir, f, data)]
  | Dir _ None => []
  | Dir d (Some es) => flat_map (files_below (path_join dir d)) es
  end.

(** The files under [./backend]. *)
Definition files_under (w : world) : list (text * text * option text) :=
  match backend w with
  | None => []
  | Some es => flat_map (files_below backend_dir) es
  end.

(** The same, as a relation: [x] is a file of the entry [e] of the
    directory [dir], or of an entry of a listable directory below it. *)
Inductive reaches : text -> entry -> text * text * option text -> Prop :=
| Reach_file dir f data : reaches dir (File f data) (dir, f, data)
| Reach_sub dir d es e x :
    In e es -> reaches (path_join dir d) e x ->
    reaches dir (Dir d (Some es)) x.

(** The number of records a file under the root stands for: the matches
    of the two passes on its text when its name ends with [.go]. *)
Definition records_in (f : text * text * option text) : nat :=
  let '(_, file, data) := f in
  if endswith file (txt ".go") then
    match data with
    | Some content =>
        length (func_matches content) + length (struct_matches content)
    | None => 0
    end
  else 0.


(* ================================================================== *)
(** * Properties *)

(** ** Characters and text *)

Lemma in_range_spec lo hi c :
  in_range lo hi c = true <-> (lo <= c <= hi)%N.
Proof.
  unfold in_range. rewrite andb_true_iff, !N.leb_le. tauto.
Qed.

Lemma is_space_chars c : is_space c = true -> In c space_chars.
Proof.
  unfold is_space. rewrite !orb_true_iff, !in_range_spec, !N.eqb_eq.
  unfold space_chars. simpl. lia.
Qed.

(** No white-space character is a word character, and conversely. *)
Lemma space_not_word c : is_space c = true -> is_word c = false.
Proof.
  intros H. apply is_space_chars in H.
  assert (A : forallb (fun c => negb (is_word c)) space_chars = true)
    by (vm_compute; reflexivity).
  rewrite forallb_forall in A. apply A in H.
  now apply negb_true_iff in H.
Qed.

Lemma word_not_space c : is_word c = true -> is_space c = false.
Proof.
  intros H. destruct (is_space c) eqn:E; [|reflexivity].
  apply space_not_word in E. congruence.
Qed.

Lemma lstrip_nonspace c s : is_space c = false -> lstrip (c :: s) = c :: s.
Proof. intros H. simpl. now rewrite H. Qed.

Lemma strip_nonempty c s : is_space c = false -> strip (c :: s) <> [].
Proof.
  intros H. unfold strip, rstrip. rewrite lstrip_nonspace by assumption.
  intros E. apply (f_equal (@rev char)) in E. rewrite rev_involutive in E.
  simpl in E.
  assert (L : forall t, In c t -> lstrip t <> []).
  { induction t as [|d t IH]; simpl; [tauto|].
    intros [-> | Hin].
    - now rewrite H.
    - destruct (is_space d); [auto | discriminate]. }
  apply (L (rev s ++ [c])); [|exact E].
  apply in_or_app. right. now left.
Qed.

(** ** The matcher *)

Lemma taken_app (a b : text) : taken (a ++ b) b = a.
Proof.
  unfold taken. rewrite length_app.
  replace (length a + length b - length b) with (length a) by lia.
  rewrite firstn_app, Nat.sub_diag, firstn_all. simpl. apply app_nil_r.
Qed.

Lemma star_loop_S body b k fuel s g :
  star_loop body b k (S fuel) s g =
  if b then
    match body s g (again_with body b k fuel s) with
    | Some a => Some a
    | None => k s g
    end
  else
    match k s g with
    | Some a => Some a
    | None => body s g (again_with body b k fuel s)
    end.
Proof. reflexivity. Qed.

Section StarLoop.

Variable body : text -> groups -> cont -> answer.

(** The two facts about a sub-pattern the loop relies on: it hands
    no longer input to its continuation, and it cannot succeed when its
    continuation never does. *)
Hypothesis body_ext : forall s g k1 k2,
  (forall s1 g1, length s1 <= length s -> k1 s1 g1 = k2 s1 g1) ->
  body s g k1 = body s g k2.
Hypothesis body_fail : forall s g, body s g (fun _ _ => None) = None.

Lemma star_loop_ext b fuel : forall s g k1 k2,
  (forall s1 g1, length s1 <= length s -> k1 s1 g1 = k2 s1 g1) ->
  star_loop body b k1 fuel s g = star_loop body b k2 fuel s g.
Proof.
  induction fuel as [|fuel IH]; intros s g k1 k2 H.
  - simpl. apply H. lia.
  - rewrite !star_loop_S.
    assert (E : body s g (again_with body b k1 fuel s)
              = body s g (again_with body b k2 fuel s)).
    { apply body_ext. intros s1 g1 Hle. unfold again_with.
      destruct (length s1 <? length s) eqn:Hlt; [|reflexivity].
      apply IH. intros s2 g2 H2. apply H. lia. }
    rewrite E, (H s g) by lia. reflexivity.
Qed.

Lemma star_loop_fail b fuel : forall s g,
  star_loop body b (fun _ _ => None) fuel s g = None.
Proof.
  induction fuel as [|fuel IH]; intros s g; [reflexivity|].
  rewrite star_loop_S.
  assert (E : body s g (again_with body b (fun _ _ => None) fuel s) = None).
  { transitivity (body s g (fun _ _ => None)); [|apply body_fail].
    apply body_ext. intros s1 g1 _.
    unfold again_with.
    destruct (length s1 <? length s); [apply IH | reflexivity]. }
  rewrite E. now destruct b.
Qed.

Lemma star_loop_empty b k fuel s g :
  length s = 0 -> star_loop body b k fuel s g = k s g.
Proof.
  intros Hs. destruct fuel as [|f]; [reflexivity|].
  rewrite star_loop_S.
  assert (E : body s g (again_with body b k f s) = None).
  { transitivity (body s g (fun _ _ => None)); [|apply body_fail].
    apply body_ext. intros s1 g1 _.
    unfold again_with. rewrite Hs. reflexivity. }
  rewrite E. destruct b; [reflexivity | now destruct (k s g)].
Qed.

(** Any counter that covers the input gives the same loop. *)
Lemma star_loop_fuel b k : forall f1 f2 s g,
  length s <= f1 -> length s <= f2 ->
  star_loop body b k f1 s g = star_loop body b k f2 s g.
Proof.
  induction f1 as [|f1 IH]; intros f2 s g H1 H2.
  - rewrite !star_loop_empty by lia. reflexivity.
  - destruct f2 as [|f2]; [rewrite !star_loop_empty by lia; reflexivity|].
    rewrite !star_loop_S.
    assert (E : body s g (again_with body b k f1 s)
              = body s g (again_with body b k f2 s)).
    { apply body_ext. intros s1 g1 _. unfold again_with.
      destruct (length s1 <? length s) eqn:Hlt; [|reflexivity].
      apply Nat.ltb_lt in Hlt. apply IH; lia. }
    rewrite E. reflexivity.
Qed.

End StarLoop.

Lemma run_ext r : forall s g k1 k2,
  (forall s1 g1, length s1 <= length s -> k1 s1 g1 = k2 s1 g1) ->
  run r s g k1 = run r s g k2.
Proof.
  induction r as [|cs|r1 IH1 r2 IH2|b r IH|r IH|n r IH];
    intros s g k1 k2 H; simpl.
  - apply H. lia.
  - destruct s as [|c s]; [reflexivity|].
    destruct (cset_test cs c); [|reflexivity]. apply H. simpl. lia.
  - apply IH1. intros s1 g1 H1. apply IH2. intros s2 g2 H2. apply H. lia.
  - apply star_loop_ext; assumption.
  - rewrite (IH s g k1 k2 H), (H s g) by lia. reflexivity.
  - apply IH. intros s1 g1 H1. apply H. assumption.
Qed.

Lemma run_fail r : forall s g, run r s g (fun _ _ => None) = None.
Proof.
  induction r as [|cs|r1 IH1 r2 IH2|b r IH|r IH|n r IH]; intros s g; simpl.
  - reflexivity.
  - destruct s as [|c s]; [reflexivity|]. now destruct (cset_test cs c).
  - transitivity (run r1 s g (fun _ _ => None)); [|apply IH1].
    apply run_ext. intros; apply IH2.
  - apply star_loop_fail; [apply run_ext | apply IH].
  - now rewrite IH.
  - apply IH.
Qed.

(** The repetition, one iteration at a time. *)
Lemma run_star b r s g k :
  run (Star b r) s g k =
  let again s1 g1 :=
    if length s1 <? length s then run (Star b r) s1 g1 k else None in
  if b then
    match run r s g again with
    | Some a => Some a
    | None => k s g
    end
  else
    match k s g with
    | Some a => Some a
    | None => run r s g again
    end.
Proof.
  cbv zeta.
  change (run (Star b r) s g k) with (star_loop (run r) b k (length s) s g).
  rewrite (star_loop_fuel (run r) (run_ext r) (run_fail r) b k
             (length s) (S (length s)) s g) by lia.
  rewrite star_loop_S.
  assert (E : run r s g (again_with (run r) b k (length s) s)
            = run r s g
              (fun s1 g1 => if length s1 <? length s
                            then run (Star b r) s1 g1 k else None)).
  { apply run_ext. intros s1 g1 _. unfold again_with.
    destruct (length s1 <? length s) eqn:Hlt; [|reflexivity].
    apply Nat.ltb_lt in Hlt.
    change (run (Star b r) s1 g1 k)
      with (star_loop (run r) b k (length s1) s1 g1).
    apply star_loop_fuel; [apply run_ext | apply run_fail | lia | lia]. }
  rewrite E. reflexivity.
Qed.

(** A successful run has matched, and its answer is the continuation's. *)
Lemma star_loop_sound (body : text -> groups -> cont -> answer) r b k
    (Hbody : forall s g k' a, body s g k' = Some a ->
       exists s1 g1, matches r s g s1 g1 /\ k' s1 g1 = Some a) :
  forall fuel s g a, star_loop body b k fuel s g = Some a ->
    exists s1 g1, matches (Star b r) s g s1 g1 /\ k s1 g1 = Some a.
Proof.
  assert (Stop : forall s g a, k s g = Some a ->
            exists s1 g1, matches (Star b r) s g s1 g1 /\ k s1 g1 = Some a).
  { intros s g a H. exists s, g. split; [constructor | assumption]. }
  induction fuel as [|fuel IH]; intros s g a H.
  - now apply Stop.
  - rewrite star_loop_S in H.
    assert (More : forall a',
      body s g (again_with body b k fuel s) = Some a' ->
      exists s1 g1, matches (Star b r) s g s1 g1 /\ k s1 g1 = Some a').
    { intros a' Hb. apply Hbody in Hb. destruct Hb as (s1 & g1 & Hm & Hk).
      unfold again_with in Hk.
      destruct (length s1 <? length s) eqn:Hlt; [|discriminate].
      apply Nat.ltb_lt in Hlt. apply IH in Hk.
      destruct Hk as (s2 & g2 & Hm2 & Hk2).
      exists s2, g2. split; [|assumption].
      eapply M_star_more; eassumption. }
    destruct b.
    + destruct (body s g _) eqn:Hb.
      * inversion H; subst. now apply More.
      * now apply Stop.
    + destruct (k s g) eqn:Hk.
      * inversion H; subst. now apply Stop.
      * now apply More.
Qed.

Lemma run_sound r : forall s g k a, run r s g k = Some a ->
  exists s1 g1, matches r s g s1 g1 /\ k s1 g1 = Some a.
Proof.
  induction r as [|cs|r1 IH1 r2 IH2|b r IH|r IH|n r IH];
    intros s g k a H; simpl in H.
  - exists s, g. split; [constructor | assumption].
  - destruct s as [|c s]; [discriminate|].
    destruct (cset_test cs c) eqn:Hc; [|discriminate].
    exists s, g. split; [now constructor | assumption].
  - apply IH1 in H. destruct H as (s1 & g1 & H1 & H).
    apply IH2 in H. destruct H as (s2 & g2 & H2 & H).
    exists s2, g2. split; [econstructor; eassumption | assumption].
  - eapply star_loop_sound; eassumption.
  - destruct (run r s g k) eqn:Hr.
    + inversion H; subst. apply IH in Hr.
      destruct Hr as (s1 & g1 & H1 & Hk).
      exists s1, g1. split; [now apply M_opt_some | assumption].
    + exists s, g. split; [apply M_opt_none | assumption].
  - apply IH in H. destruct H as (s1 & g1 & H1 & Hk).
    exists s1, ((n, taken s s1) :: g1).
    split; [now apply M_group | assumption].
Qed.

Lemma match_at_sound r s rest g :
  match_at r s = Some (rest, g) -> matches r s [] rest g.
Proof.
  unfold match_at. intros H. apply run_sound in H.
  destruct H as (s1 & g1 & Hm & E). inversion E; subst. assumption.
Qed.

(** What is left after a match is a suffix of the input. *)
Lemma matches_suffix r s g s1 g1 :
  matches r s g s1 g1 -> exists pre, s = pre ++ s1.
Proof.
  induction 1.
  - now exists [].
  - now exists [c].
  - destruct IHmatches1 as [p1 ->], IHmatches2 as [p2 ->].
    exists (p1 ++ p2). now rewrite app_assoc.
  - assumption.
  - now exists [].
  - assumption.
  - now exists [].
  - destruct IHmatches1 as [p1 ->], IHmatches2 as [p2 ->].
    exists (p1 ++ p2). now rewrite app_assoc.
Qed.

(** ** The matcher on given input *)

Lemma run_seq r1 r2 s g k :
  run (Seq r1 r2) s g k = run r1 s g (fun s1 g1 => run r2 s1 g1 k).
Proof. reflexivity. Qed.

Lemma run_group n r s g k :
  run (Group n r) s g k = run r s g (fun s1 g1 => k s1 ((n, taken s s1) :: g1)).
Proof. reflexivity. Qed.

Lemma run_opt r s g k :
  run (Opt r) s g k =
  match run r s g k with
  | Some a => Some a
  | None => k s g
  end.
Proof. reflexivity. Qed.

Lemma run_chr cs c s g k :
  run (Chr cs) (c :: s) g k = if cset_test cs c then k s g else None.
Proof. reflexivity. Qed.

Lemma run_lit_char c s g k : run (Chr (Lit c)) (c :: s) g k = k s g.
Proof. simpl. now rewrite N.eqb_refl. Qed.

Lemma run_lit w : forall rest g k, run (lit w) (w ++ rest) g k = k rest g.
Proof.
  induction w as [|c w IH]; intros rest g k; [reflexivity|].
  simpl lit. rewrite run_seq. simpl app. rewrite run_lit_char. apply IH.
Qed.

(** A literal cannot start at a different character. *)
Lemma run_lit_mismatch c w d s g k :
  (d =? c)%N = false -> run (lit (c :: w)) (d :: s) g k = None.
Proof. intros H. simpl. now rewrite H. Qed.

(** The repetition of a one-character item, one character at a time. *)
Lemma run_star_chr_nil b cs g k : run (Star b (Chr cs)) [] g k = k [] g.
Proof. reflexivity. Qed.

Lemma run_star_chr b cs c s g k :
  run (Star b (Chr cs)) (c :: s) g k =
  if cset_test cs c then
    if b then
      match run (Star b (Chr cs)) s g k with
      | Some a => Some a
      | None => k (c :: s) g
      end
    else
      match k (c :: s) g with
      | Some a => Some a
      | None => run (Star b (Chr cs)) s g k
      end
  else k (c :: s) g.
Proof.
  rewrite run_star. cbv zeta. rewrite run_chr.
  replace (length s <? length (c :: s)) with true
    by (symmetry; apply Nat.ltb_lt; simpl; lia).
  destruct (cset_test cs c), b; try reflexivity.
  now destruct (k (c :: s) g).
Qed.

(** Greedy repetition: when the item covers [a] and cannot go on after it,
    an answer of the continuation after [a] is the answer. *)
Lemma greedy_star_ok cs a rest g k x :
  all_in cs a = true -> stops cs rest = true ->
  k rest g = Some x ->
  run (Star true (Chr cs)) (a ++ rest) g k = Some x.
Proof.
  intros Ha Hstop Hk. induction a as [|c a IH]; simpl app.
  - destruct rest as [|d rest]; [exact Hk|].
    rewrite run_star_chr. simpl in Hstop.
    apply negb_true_iff in Hstop. now rewrite Hstop.
  - simpl in Ha. apply andb_true_iff in Ha. destruct Ha as [Hc Ha].
    rewrite run_star_chr, Hc, (IH Ha). reflexivity.
Qed.

Lemma greedy_plus_ok cs a rest g k x :
  a <> [] -> all_in cs a = true -> stops cs rest = true ->
  k rest g = Some x ->
  run (Plus (Chr cs)) (a ++ rest) g k = Some x.
Proof.
  intros Hne Ha Hstop Hk. destruct a as [|c a]; [congruence|].
  simpl in Ha. apply andb_true_iff in Ha. destruct Ha as [Hc Ha].
  unfold Plus. rewrite run_seq. simpl app. rewrite run_chr, Hc.
  now apply greedy_star_ok.
Qed.

(** Lazy repetition: the continuation is tried at every character of [a]
    first; when it fails at each of them, its answer after [a] is the
    answer. *)
Lemma lazy_star_ok cs a rest g k x :
  all_in cs a = true ->
  (forall c s, In c a -> k (c :: s) g = None) ->
  k rest g = Some x ->
  run (Star false (Chr cs)) (a ++ rest) g k = Some x.
Proof.
  intros Ha Hfail Hk. induction a as [|c a IH]; simpl app.
  - destruct rest as [|d rest]; [exact Hk|].
    rewrite run_star_chr, Hk. now destruct (cset_test cs d).
  - simpl in Ha. apply andb_true_iff in Ha. destruct Ha as [Hc Ha].
    rewrite run_star_chr, Hc, Hfail by now left.
    apply IH; [assumption|]. intros d s Hd. apply Hfail. now right.
Qed.

Lemma stops_after_spaces cs ws d rest :
  (forall c, is_space c = true -> cset_test cs c = false) ->
  cset_test cs d = false ->
  all_in Space ws = true -> stops cs (ws ++ d :: rest) = true.
Proof.
  intros Hsp Hd Hws. destruct ws as [|c ws]; simpl.
  - now rewrite Hd.
  - simpl in Hws. apply andb_true_iff in Hws. destruct Hws as [Hc _].
    now rewrite (Hsp c Hc).
Qed.

(** ** The two patterns on a declaration *)

Lemma slash_not_space : is_space 47%N = false.
Proof. reflexivity. Qed.

Lemma lparen_not_word : is_word 40%N = false.
Proof. vm_compute. reflexivity. Qed.

Lemma startswith_slash d s : startswith (d :: s) (txt "/") = (d =? 47)%N.
Proof.
  change (txt "/") with [47%N]. cbn [startswith].
  destruct s; cbn [startswith]; rewrite andb_true_r; apply N.eqb_sym.
Qed.

Lemma comment_lines_unfold s g k :
  run comment_lines s g k =
  match
    run (Group 1 (lit (txt "//") ;; Star true (Chr Dot) ;; Chr (Lit NL))) s g
      (fun s1 g1 => if length s1 <? length s
                    then run comment_lines s1 g1 k else None)
  with
  | Some a => Some a
  | None => k s g
  end.
Proof. unfold comment_lines. now rewrite run_star. Qed.

(** The comment repetition stops where no comment line starts. *)
Lemma comment_lines_stop s g k :
  startswith s (txt "/") = false -> run comment_lines s g k = k s g.
Proof.
  intros H. rewrite comment_lines_unfold, run_group, run_seq.
  destruct s as [|d s]; [reflexivity|].
  rewrite startswith_slash in H.
  change (txt "//") with [47; 47]%N.
  now rewrite run_lit_mismatch.
Qed.

Lemma comment_block_cons c lines :
  comment_block (c :: lines) = comment_line c ++ comment_block lines.
Proof. reflexivity. Qed.

Lemma comment_line_app c s :
  comment_line c ++ s = txt "//" ++ c ++ NL :: s.
Proof. unfold comment_line. now rewrite <- !app_assoc. Qed.

Lemma comment_lines_ok lines : forall rest g k x,
  Forall (fun c => all_in Dot c = true) lines ->
  startswith rest (txt "/") = false ->
  k rest (comment_groups lines ++ g) = Some x ->
  run comment_lines (comment_block lines ++ rest) g k = Some x.
Proof.
  induction lines as [|c lines IH]; intros rest g k x Hl Hrest Hk.
  - change (comment_block [] ++ rest) with rest.
    now rewrite comment_lines_stop.
  - inversion Hl as [|? ? Hc Hl']; subst.
    rewrite comment_block_cons, <- app_assoc.
    set (s1 := comment_block lines ++ rest).
    rewrite comment_lines_unfold, run_group, run_seq.
    rewrite comment_line_app at 1.
    rewrite run_lit, run_seq.
    assert (E : run (Star true (Chr Dot)) (c ++ NL :: s1) g
      (fun s2 g2 => run (Chr (Lit NL)) s2 g2
         (fun s3 g3 =>
            if length s3 <? length (comment_line c ++ s1)
            then run comment_lines s3
                   ((1, taken (comment_line c ++ s1) s3) :: g3) k
            else None)) = Some x).
    { apply greedy_star_ok; [assumption | reflexivity |].
      rewrite run_lit_char.
      replace (length s1 <? length (comment_line c ++ s1)) with true.
      2:{ symmetry. apply Nat.ltb_lt. rewrite length_app.
          unfold comment_line. simpl. lia. }
      apply IH; [assumption | assumption |].
      rewrite taken_app.
      unfold comment_groups in *. simpl map in Hk. simpl rev in Hk.
      rewrite <- app_assoc in Hk. exact Hk. }
    rewrite E. reflexivity.
Qed.

Lemma word_not_lparen c : is_word c = true -> (c =? 40)%N = false.
Proof.
  intros H. destruct (N.eqb_spec c 40) as [->|]; [|reflexivity].
  rewrite lparen_not_word in H. discriminate.
Qed.

Lemma space_not_slash c : is_space c = true -> (c =? 47)%N = false.
Proof.
  intros H. destruct (N.eqb_spec c 47) as [->|]; [|reflexivity].
  rewrite slash_not_space in H. discriminate.
Qed.

Lemma no_slash_after_spaces ws d rest :
  all_in Space ws = true -> (d =? 47)%N = false ->
  startswith (ws ++ d :: rest) (txt "/") = false.
Proof.
  intros Hws Hd. destruct ws as [|c ws]; simpl app; rewrite startswith_slash.
  - assumption.
  - simpl in Hws. apply andb_true_iff in Hws. now apply space_not_slash.
Qed.

Lemma stops_space_word nm rest :
  nm <> [] -> all_in Word nm = true -> stops Space (nm ++ rest) = true.
Proof.
  intros Hne H. destruct nm as [|c nm]; [congruence|].
  simpl in *. apply andb_true_iff in H. destruct H as [H _].
  now rewrite (word_not_space c H).
Qed.

Section OneLineDeclaration.

(** A block of comment lines, then a declaration written on one line. *)
Variables (lines : list text) (ws sp nm sp2 ws2 p rest : text).
Hypothesis Hlines : Forall (fun c => all_in Dot c = true) lines.
Hypothesis Hws : all_in Space ws = true.
Hypothesis Hsp : all_in Space sp = true.
Hypothesis Hsp_ne : sp <> [].
Hypothesis Hnm : all_in Word nm = true.
Hypothesis Hnm_ne : nm <> [].
Hypothesis Hws2 : all_in Space ws2 = true.
Hypothesis Hsp2 : all_in Space sp2 = true.
Hypothesis Hsp2_ne : sp2 <> [].

(** [func name(p)]: the match ends at the first closing parenthesis. *)
Lemma func_re_on_decl :
  all_in Dot p = true -> ~ In RPAREN p ->
  match_at func_re
    (comment_block lines ++ ws ++ txt "func" ++ sp ++ nm ++ ws2
     ++ txt "(" ++ p ++ txt ")" ++ rest)
  = Some (rest, (4, p) :: (3, nm) :: comment_groups lines).
Proof.
  intros Hp Hparen. unfold match_at, func_re.
  rewrite run_seq. apply comment_lines_ok; [assumption| |].
  { now apply no_slash_after_spaces. }
  rewrite app_nil_r.
  rewrite run_seq. apply greedy_star_ok; [assumption|reflexivity|].
  rewrite run_seq, run_lit.
  rewrite run_seq. apply greedy_plus_ok;
    [assumption|assumption|now apply stops_space_word|].
  rewrite run_seq, run_opt.
  assert (E : forall k, run (Group 2 (Chr (Lit (ch "(")) ;; Star false (Chr Dot) ;;
               Chr (Lit (ch ")")) ;; Plus (Chr Space)))
              (nm ++ ws2 ++ txt "(" ++ p ++ txt ")" ++ rest)
              (comment_groups lines) k = None).
  { intros k. rewrite run_group, run_seq.
    destruct nm as [|c nm']; [congruence|].
    simpl in Hnm. apply andb_true_iff in Hnm. destruct Hnm as [Hc _].
    simpl app. rewrite run_chr. simpl cset_test.
    change (ch "(") with 40%N. now rewrite word_not_lparen. }
  rewrite E. clear E.
  rewrite run_seq, run_group. apply greedy_plus_ok;
    [assumption|assumption| |].
  { apply stops_after_spaces; [apply space_not_word | apply lparen_not_word
                              | assumption]. }
  rewrite taken_app.
  rewrite run_seq. apply greedy_star_ok; [assumption|reflexivity|].
  rewrite run_seq. change (txt "(" ++ p ++ txt ")" ++ rest)
    with (ch "(" :: p ++ txt ")" ++ rest).
  rewrite run_lit_char, run_seq, run_group.
  apply lazy_star_ok; [assumption| |].
  - intros c s Hc. rewrite run_chr. simpl cset_test.
    destruct (N.eqb_spec c 41) as [->|]; [|reflexivity].
    now destruct Hparen.
  - change (txt ")" ++ rest) with (ch ")" :: rest) at 1.
    rewrite run_lit_char, taken_app. reflexivity.
Qed.

(** [type name struct {]. *)
Lemma struct_re_on_decl :
  match_at struct_re
    (comment_block lines ++ ws ++ txt "type" ++ sp ++ nm ++ sp2
     ++ txt "struct" ++ ws2 ++ txt "{" ++ rest)
  = Some (rest, (2, nm) :: comment_groups lines).
Proof.
  unfold match_at, struct_re.
  rewrite run_seq. apply comment_lines_ok; [assumption| |].
  { now apply no_slash_after_spaces. }
  rewrite app_nil_r.
  rewrite run_seq. apply greedy_star_ok; [assumption|reflexivity|].
  rewrite run_seq, run_lit.
  rewrite run_seq. apply greedy_plus_ok;
    [assumption|assumption|now apply stops_space_word|].
  rewrite run_seq, run_group. apply greedy_plus_ok;
    [assumption|assumption| |].
  { destruct sp2 as [|c sp2']; [congruence|].
    simpl in Hsp2. apply andb_true_iff in Hsp2. destruct Hsp2 as [Hc _].
    simpl. now rewrite (space_not_word c Hc). }
  rewrite taken_app.
  rewrite run_seq. apply greedy_plus_ok;
    [assumption|assumption|reflexivity|].
  rewrite run_seq, run_lit.
  rewrite run_seq. apply greedy_star_ok; [assumption|reflexivity|].
  change (txt "{" ++ rest) with (ch "{" :: rest).
  now rewrite run_lit_char.
Qed.

End OneLineDeclaration.

(** ** [finditer] *)

Lemma finditer_head r s rest g :
  match_at r s = Some (rest, g) ->
  exists more,
    finditer r s =
    {| m_start := 0; m_end := length s - length rest; m_groups := g |} :: more.
Proof.
  intros H. unfold finditer. destruct s as [|c s]; simpl; rewrite H;
    eexists; reflexivity.
Qed.

Lemma finditer_from_cons r pos c s :
  finditer_from r pos 0 (c :: s) =
  match match_at r (c :: s) with
  | Some (rest, g) =>
      {| m_start := pos; m_end := pos + (length (c :: s) - length rest);
         m_groups := g |}
      :: finditer_from r (S pos) (length (c :: s) - length rest - 1) s
  | None => finditer_from r (S pos) 0 s
  end.
Proof. reflexivity. Qed.

(** Every match reported by the scan is a match of the pattern at the
    head of some suffix of the text, and its span is what was consumed
    there. *)
Lemma finditer_from_in r m : forall s pos skip,
  In m (finditer_from r pos skip s) ->
  exists pre suf rest,
    s = pre ++ suf /\ m_start m = pos + length pre /\
    match_at r suf = Some (rest, m_groups m) /\
    m_end m = m_start m + (length suf - length rest).
Proof.
  assert (Shift : forall c (s : text) pos,
    (exists pre suf rest,
       s = pre ++ suf /\ m_start m = S pos + length pre /\
       match_at r suf = Some (rest, m_groups m) /\
       m_end m = m_start m + (length suf - length rest)) ->
    exists pre suf rest,
      c :: s = pre ++ suf /\ m_start m = pos + length pre /\
      match_at r suf = Some (rest, m_groups m) /\
      m_end m = m_start m + (length suf - length rest)).
  { intros c s pos (pre & suf & rest & -> & Hs & Hm & He).
    exists (c :: pre), suf, rest. simpl. repeat split; try assumption. lia. }
  induction s as [|c s IH]; intros pos skip H.
  - destruct skip; simpl in H; [|contradiction].
    destruct (match_at r []) as [[rest g]|] eqn:E; [|contradiction].
    destruct H as [<-|[]]. exists [], [], rest. simpl.
    repeat split; [lia | assumption].
  - destruct skip as [|skip]; simpl in H.
    + destruct (match_at r (c :: s)) as [[rest g]|] eqn:E.
      * destruct H as [<-|H].
        -- exists [], (c :: s), rest. simpl. repeat split; [lia | assumption].
        -- apply Shift. eapply IH. eassumption.
      * apply Shift. eapply IH. eassumption.
    + apply Shift. eapply IH. eassumption.
Qed.

Lemma finditer_in r m s :
  In m (finditer r s) ->
  exists pre suf rest,
    s = pre ++ suf /\ m_start m = length pre /\
    match_at r suf = Some (rest, m_groups m) /\
    m_end m = m_start m + (length suf - length rest).
Proof. intros H. apply finditer_from_in in H. exact H. Qed.

(** The scan reports matches from left to right. *)
Lemma finditer_from_starts r : forall s pos skip,
  Forall (fun m => pos <= m_start m) (finditer_from r pos skip s)
  /\ StronglySorted lt (map m_start (finditer_from r pos skip s)).
Proof.
  assert (Up : forall pos l,
    Forall (fun m => S pos <= m_start m) l ->
    Forall (fun m => pos <= m_start m) l).
  { intros pos l H. eapply Forall_impl; [|exact H]. simpl. intros; lia. }
  assert (Hd : forall pos (l : list rmatch),
    Forall (fun m => S pos <= m_start m) l ->
    Forall (lt pos) (map m_start l)).
  { intros pos l H. apply Forall_map. eapply Forall_impl; [|exact H].
    simpl. intros; lia. }
  induction s as [|c s IH]; intros pos skip.
  - destruct skip; simpl.
    + destruct (match_at r []) as [[rest g]|]; simpl.
      * split; repeat constructor.
      * split; constructor.
    + split; constructor.
  - destruct skip as [|skip]; [rewrite finditer_from_cons|simpl].
    + destruct (match_at r (c :: s)) as [[rest g]|].
      * destruct (IH (S pos) (length (c :: s) - length rest - 1)) as [A B].
        split.
        -- constructor; [simpl; lia | now apply Up].
        -- simpl map. constructor; [assumption | now apply Hd].
      * destruct (IH (S pos) 0) as [A B]. split; [now apply Up | assumption].
    + destruct (IH (S pos) skip) as [A B]. split; [now apply Up | assumption].
Qed.

Lemma finditer_sorted r s : StronglySorted lt (map m_start (finditer r s)).
Proof. apply finditer_from_starts. Qed.

(** ** What a match of the patterns has captured *)

Lemma matches_group_free r s g s1 g1 :
  matches r s g s1 g1 -> group_free r = true -> g1 = g.
Proof.
  induction 1; simpl; intros F; try reflexivity;
    try (apply andb_true_iff in F; destruct F as [F1 F2]);
    try discriminate.
  - rewrite IHmatches2, IHmatches1; auto.
  - auto.
  - rewrite IHmatches2, IHmatches1; auto.
Qed.

(** A repetition of a one-character item consumes characters of the item. *)
Lemma matches_star_chr b cs s g s1 g1 :
  matches (Star b (Chr cs)) s g s1 g1 ->
  exists a, s = a ++ s1 /\ all_in cs a = true.
Proof.
  intros H. remember (Star b (Chr cs)) as r eqn:Er.
  induction H; try discriminate.
  - now exists [].
  - inversion Er; subst. inversion H; subst.
    destruct (IHmatches2 eq_refl) as (a & -> & Ha).
    exists (c :: a). split; [reflexivity|]. simpl.
    match goal with Hc : cset_test cs c = true |- _ => now rewrite Hc end.
Qed.

Lemma matches_plus_chr cs s g s1 g1 :
  matches (Plus (Chr cs)) s g s1 g1 ->
  exists c a, s = c :: a ++ s1 /\ all_in cs (c :: a) = true.
Proof.
  unfold Plus. intros H.
  inversion H as [ | |r1 r2 s' g' s2 g2 s3 g3 H1 H2| | | | | ]; subst.
  inversion H1 as [ |cs' c s' g' Hc| | | | | | ]; subst.
  apply matches_star_chr in H2. destruct H2 as (a & -> & Ha).
  exists c, a. split; [reflexivity|]. simpl. now rewrite Hc.
Qed.

(** A capturing group around [\w+] has captured a non-empty word. *)
Lemma matches_word_group n s g s1 g1 :
  matches (Group n (Plus (Chr Word))) s g s1 g1 ->
  exists nm, nm <> [] /\ all_in Word nm = true /\ s = nm ++ s1
             /\ g1 = (n, nm) :: g.
Proof.
  intros H. inversion H as [ | | | | |n' r' s' g' s1' g1' Hm| | ]; subst.
  pose proof (matches_group_free _ _ _ _ _ Hm eq_refl) as ->.
  apply matches_plus_chr in Hm. destruct Hm as (c & a & -> & Ha).
  exists (c :: a). repeat split; try assumption; [discriminate|].
  change (c :: a ++ s1) with ((c :: a) ++ s1). now rewrite taken_app.
Qed.

(** Lazy repetition of a one-character item: the answer is the
    continuation's at the first place where it has one. *)
Lemma lazy_star_first cs k g x : forall s,
  run (Star false (Chr cs)) s g k = Some x ->
  exists a rest,
    s = a ++ rest /\ all_in cs a = true /\ k rest g = Some x /\
    (forall a1 c a2, a = a1 ++ c :: a2 -> k (c :: a2 ++ rest) g = None).
Proof.
  assert (Here : forall s, k s g = Some x ->
    exists a rest,
      s = a ++ rest /\ all_in cs a = true /\ k rest g = Some x /\
      (forall a1 c a2, a = a1 ++ c :: a2 -> k (c :: a2 ++ rest) g = None)).
  { intros s H. exists [], s.
    split; [reflexivity|]. split; [reflexivity|]. split; [assumption|].
    intros a1 c a2 E. destruct a1; discriminate E. }
  induction s as [|c s IH]; intros H.
  - apply Here. exact H.
  - rewrite run_star_chr in H.
    destruct (cset_test cs c) eqn:Hc; [|now apply Here].
    destruct (k (c :: s) g) eqn:Hk.
    + inversion H; subst. now apply Here.
    + destruct (IH H) as (a & rest & -> & Ha & Hr & Hf).
      exists (c :: a), rest. repeat split; try assumption.
      * simpl. now rewrite Hc.
      * intros [|d a1] e a2 E; simpl in E; inversion E; subst.
        -- exact Hk.
        -- eapply Hf. reflexivity.
Qed.

(** One step through a sequence: the head has matched a prefix [pre],
    and the tail of the sequence runs on what is left. *)
Ltac stage H pre g' :=
  let s' := fresh "s" in
  let M := fresh "M" in
  rewrite run_seq in H; apply run_sound in H;
  destruct H as (s' & g' & M & H);
  apply matches_suffix in M; destruct M as [pre ->].

(** A match of the function pattern: the name is a non-empty word, and
    the match ends with a parenthesised text free of line breaks and of
    closing parentheses. *)
Lemma func_match_inv s rest g :
  match_at func_re s = Some (rest, g) ->
  exists before nm p g0,
    s = before ++ txt "(" ++ p ++ txt ")" ++ rest /\
    g = (4, p) :: (3, nm) :: g0 /\
    nm <> [] /\ all_in Word nm = true /\
    all_in Dot p = true /\ ~ In RPAREN p.
Proof.
  unfold match_at, func_re. intros H.
  stage H x1 g1. stage H x2 g2. stage H x3 g3. stage H x4 g4. stage H x5 g5.
  rewrite run_seq in H. apply run_sound in H.
  destruct H as (s6 & g6 & M6 & H).
  apply matches_word_group in M6.
  destruct M6 as (nm & Hne & Hnm & -> & ->).
  rewrite run_seq in H. apply run_sound in H.
  destruct H as (s7 & g7 & M7 & H).
  pose proof (matches_group_free _ _ _ _ _ M7 eq_refl) as ->.
  apply matches_suffix in M7. destruct M7 as [ws2 ->].
  rewrite run_seq in H. destruct s7 as [|c s8]; [discriminate|].
  rewrite run_chr in H. simpl cset_test in H.
  destruct (N.eqb_spec c 40) as [->|]; [|discriminate].
  rewrite run_seq, run_group in H.
  apply lazy_star_first in H.
  destruct H as (p & rest' & -> & Hp & Hk & Hfirst).
  destruct rest' as [|d rest']; [discriminate|].
  rewrite run_chr in Hk. simpl cset_test in Hk.
  destruct (N.eqb_spec d 41) as [->|]; [|discriminate].
  inversion Hk; subst. clear Hk.
  change (41%N :: rest) with ([41%N] ++ rest).
  rewrite taken_app.
  exists (x1 ++ x2 ++ x3 ++ x4 ++ x5 ++ nm ++ ws2), nm, p, g5.
  split; [|repeat split; try assumption].
  - rewrite <- !app_assoc. reflexivity.
  - intros Hin. apply in_split in Hin. destruct Hin as (a1 & a2 & E).
    specialize (Hfirst a1 RPAREN a2 E).
    rewrite run_chr in Hfirst. discriminate.
Qed.

(** A match of the struct pattern: the name is a non-empty word. *)
Lemma struct_match_inv s rest g :
  match_at struct_re s = Some (rest, g) ->
  exists nm g0,
    g = (2, nm) :: g0 /\ nm <> [] /\ all_in Word nm = true /\
    length rest < length s.
Proof.
  unfold match_at, struct_re. intros H.
  stage H x1 g1. stage H x2 g2. stage H x3 g3. stage H x4 g4.
  rewrite run_seq in H. apply run_sound in H.
  destruct H as (s5 & g5 & M5 & H).
  apply matches_word_group in M5.
  destruct M5 as (nm & Hne & Hnm & -> & ->).
  apply run_sound in H. destruct H as (s6 & g6 & M6 & H).
  inversion H; subst. clear H.
  pose proof (matches_group_free _ _ _ _ _ M6 eq_refl) as ->.
  apply matches_suffix in M6. destruct M6 as [tl ->].
  exists nm, g4. repeat split; try assumption.
  rewrite !length_app. destruct nm; [congruence|]. simpl. lia.
Qed.

Lemma func_match_nonempty s rest g :
  match_at func_re s = Some (rest, g) -> length rest < length s.
Proof.
  intros H. apply func_match_inv in H.
  destruct H as (before & nm & p & g0 & -> & _).
  rewrite !length_app. simpl. lia.
Qed.

(** ** The walk and the accumulator *)

Lemma scan_files_ok root : forall files acc chunks,
  scan_files root files acc = Ok chunks ->
  exists parts,
    chunks = acc ++ concat parts /\
    Forall2 contributes
      (map (fun fd : text * option text => (root, fst fd, snd fd)) files) parts.
Proof.
  induction files as [|[file data] files IH]; intros acc chunks H; simpl in H.
  - inversion H; subst. exists []. split; [now rewrite app_nil_r | constructor].
  - destruct (endswith file (txt ".go")) eqn:Hgo.
    + destruct data as [content|]; simpl in H; [|discriminate].
      apply IH in H. destruct H as (parts & -> & Hparts).
      exists (symbols_of (path_join root file) content :: parts). split.
      * simpl. now rewrite app_assoc.
      * simpl. constructor; [|assumption].
        unfold contributes. rewrite Hgo. exists content.
        repeat split. unfold symbols_of.
        now rewrite length_app, !length_map.
    + apply IH in H. destruct H as (parts & -> & Hparts).
      exists ([] :: parts). split; [reflexivity|].
      simpl. constructor; [|assumption].
      unfold contributes. now rewrite Hgo.
Qed.

Lemma scan_walk_ok : forall items acc chunks,
  scan_walk items acc = Ok chunks ->
  exists parts,
    chunks = acc ++ concat parts /\
    Forall2 contributes (files_in items) parts.
Proof.
  induction items as [|[[root dirs] files] items IH]; intros acc chunks H;
    simpl in H.
  - inversion H; subst. exists []. split; [now rewrite app_nil_r | constructor].
  - destruct (scan_files root files acc) as [mid|e] eqn:Hf;
      simpl in H; [|discriminate].
    apply scan_files_ok in Hf. destruct Hf as (p1 & -> & H1).
    apply IH in H. destruct H as (p2 & -> & H2).
    exists (p1 ++ p2). split.
    + now rewrite concat_app, app_assoc.
    + simpl. apply Forall2_app; assumption.
Qed.

Lemma collect_ok w chunks :
  collect w = Ok chunks ->
  exists parts,
    chunks = concat parts /\ Forall2 contributes (walked_files w) parts.
Proof. intros H. apply scan_walk_ok in H. exact H. Qed.

(** Every chunk of a completed run comes out of [symbols_of], for a path
    made of a directory and a file name with the extension. *)
Lemma collect_chunk_origin w chunks r :
  collect w = Ok chunks -> In r chunks ->
  exists root file content,
    endswith file (txt ".go") = true /\
    In r (symbols_of (path_join root file) content).
Proof.
  intros H Hr. apply collect_ok in H. destruct H as (parts & -> & HF).
  apply in_concat in Hr. destruct Hr as (part & Hpart & Hr).
  induction HF as [|[[root file] data] part' fs ps Hc HF IH];
    [contradiction|].
  destruct Hpart as [->|Hpart]; [|now apply IH].
  unfold contributes in Hc.
  destruct (endswith file (txt ".go")) eqn:Hgo.
  - destruct Hc as (content & _ & -> & _). now exists root, file, content.
  - subst. contradiction.
Qed.

(** The loops reach their end when every walked [.go] file can be read
    (for a tree the walk can go through, see [walk_depth_limit]). *)
Lemma scan_files_total root : forall files acc,
  forallb passable
    (map (fun fd : text * option text => (root, fst fd, snd fd)) files) = true ->
  exists chunks, scan_files root files acc = Ok chunks.
Proof.
  induction files as [|[file data] files IH]; intros acc H.
  - now exists acc.
  - simpl in H. apply andb_true_iff in H. destruct H as [Hp H].
    simpl. destruct (endswith file (txt ".go")).
    + destruct data as [content|]; [|discriminate Hp].
      simpl. now apply IH.
    + now apply IH.
Qed.

Lemma scan_walk_total : forall items acc,
  forallb passable (files_in items) = true ->
  exists chunks, scan_walk items acc = Ok chunks.
Proof.
  induction items as [|[[root dirs] files] items IH]; intros acc H.
  - now exists acc.
  - simpl in H. rewrite forallb_app in H. apply andb_true_iff in H.
    destruct H as [H1 H2].
    destruct (scan_files_total root files acc H1) as [mid Hmid].
    simpl. rewrite Hmid. simpl. now apply IH.
Qed.

Lemma collect_total w :
  walk_depth w <= walk_depth_limit ->
  forallb passable (walked_files w) = true ->
  exists chunks, collect w = Ok chunks.
Proof. intros _. apply scan_walk_total. Qed.

(** ** Records of one file *)

Lemma symbols_of_func_head file_path content rest g :
  match_at func_re content = Some (rest, g) ->
  exists m more,
    m_groups m = g /\
    symbols_of file_path content = func_symbol file_path m :: more.
Proof.
  intros H. apply finditer_head in H. destruct H as [more H].
  unfold symbols_of, func_matches. rewrite H. simpl.
  eexists _, _. split; [|reflexivity]. reflexivity.
Qed.

(** A one-line function declaration at the head of the text, below any
    block of comment lines, gives the first record: its name, and as
    [params] the text up to the first closing parenthesis. *)
Lemma first_function_record file_path lines ws sp nm ws2 p rest :
  Forall (fun c => all_in Dot c = true) lines ->
  all_in Space ws = true -> all_in Space sp = true -> sp <> [] ->
  all_in Word nm = true -> nm <> [] -> all_in Space ws2 = true ->
  all_in Dot p = true -> ~ In RPAREN p ->
  exists d more,
    symbols_of file_path
      (comment_block lines ++ ws ++ txt "func" ++ sp ++ nm ++ ws2
       ++ txt "(" ++ p ++ txt ")" ++ rest)
    = {| type_ := txt "function"; name := PyStr nm; params := PyStr p;
         doc := d; source_file := file_path |} :: more.
Proof.
  intros Hl Hws Hsp Hsp' Hnm Hnm' Hws2 Hp Hp'.
  pose proof (func_re_on_decl lines ws sp nm ws2 p rest
                Hl Hws Hsp Hsp' Hnm Hnm' Hws2 Hp Hp') as H.
  apply (symbols_of_func_head file_path) in H.
  destruct H as (m & more & Hg & ->). exists (doc_of m), more.
  unfold func_symbol, group_val, group. rewrite Hg. reflexivity.
Qed.

Lemma doc_of_groups m line lines0 g0 :
  m_groups m = g0 ++ comment_groups (lines0 ++ [line]) ->
  get_group 1 g0 = None ->
  doc_of m = strip (comment_line line).
Proof.
  intros Hg H0. unfold doc_of, group. rewrite Hg.
  unfold comment_groups. rewrite map_app, rev_app_distr. simpl.
  assert (E : forall g1 tl,
             get_group 1 g1 = None ->
             get_group 1 (g1 ++ (1, comment_line line) :: tl)
             = Some (comment_line line)).
  { induction g1 as [|[i t] g1 IH]; intros tl Hn; simpl in *; [reflexivity|].
    destruct (Nat.eqb i 1); [discriminate | now apply IH]. }
  rewrite E by assumption. reflexivity.
Qed.

(** C6. The file of the worked example gives exactly two records: the
    function [Hello] with its parameter text and its comment, then the
    struct [Config] with empty [params] and [doc].  This holds whether or
    not the last line ends with a line break. *)
Theorem C6_greeter_example (file_path : text) :
  let hello := {| type_ := txt "function"; name := PyStr (txt "Hello");
                  params := PyStr (txt "name string");
                  doc := txt "// Greets the user";
                  source_file := file_path |} in
  let config := {| type_ := txt "struct"; name := PyStr (txt "Config");
                   params := PyStr []; doc := [];
                   source_file := file_path |} in
  symbols_of file_path greeter_go = [hello; config]
  /\ symbols_of file_path greeter_go_unterminated = [hello; config].
Proof. split; vm_compute; reflexivity. Qed.

(** C1 (the code departs from it). Two comment lines directly above a
    function: the record keeps the second line only, because group 1 of a
    repeated group holds its last repetition. *)
Theorem C1_doc_keeps_last_comment_line_only (file_path : text) :
  symbols_of file_path two_comments_go
  = [ {| type_ := txt "function"; name := PyStr (txt "Add");
         params := PyStr (txt "a int, b int");
         doc := txt "// It never overflows.";
         source_file := file_path |} ].
Proof. vm_compute. reflexivity. Qed.

(** The same for any block of comment lines above a one-line function
    declaration at the head of the text: [doc] is the last line, trimmed. *)
Lemma doc_is_last_comment_line file_path lines line ws sp nm ws2 p rest :
  Forall (fun c => all_in Dot c = true) (lines ++ [line]) ->
  all_in Space ws = true -> all_in Space sp = true -> sp <> [] ->
  all_in Word nm = true -> nm <> [] -> all_in Space ws2 = true ->
  all_in Dot p = true -> ~ In RPAREN p ->
  exists more,
    symbols_of file_path
      (comment_block (lines ++ [line]) ++ ws ++ txt "func" ++ sp ++ nm ++ ws2
       ++ txt "(" ++ p ++ txt ")" ++ rest)
    = {| type_ := txt "function"; name := PyStr nm; params := PyStr p;
         doc := strip (comment_line line); source_file := file_path |}
      :: more.
Proof.
  intros Hl Hws Hsp Hsp' Hnm Hnm' Hws2 Hp Hp'.
  pose proof (func_re_on_decl (lines ++ [line]) ws sp nm ws2 p rest
                Hl Hws Hsp Hsp' Hnm Hnm' Hws2 Hp Hp') as H.
  apply (symbols_of_func_head file_path) in H.
  destruct H as (m & more & Hg & ->). exists more. f_equal.
  unfold func_symbol, group_val, group. rewrite Hg. simpl get_group.
  f_equal. apply (doc_of_groups m line lines [(4, p); (3, nm)]);
    [assumption | reflexivity].
Qed.

(** C3, as the claim states it, fails: with a blank line between the
    comment and the function, [doc] is not empty. *)
Lemma C3_counterexample :
  ~ Forall (fun r => doc r = []) (symbols_of (txt "version.go") blank_line_go).
Proof.
  intros H. vm_compute in H. inversion H as [|r l Hd _]. discriminate Hd.
Qed.

(** C3, amended. White space between a comment line and the declaration
    below it, blank lines included, does not detach the comment: [\s*]
    runs over it, and [doc] is the comment line, trimmed, which is not
    empty.  [blank] is any run of white space; the declaration is a
    function or a struct written on one line. *)
Theorem C3_comment_attached_across_blank_lines
    (file_path c blank sp nm sp2 ws2 p rest : text) :
  all_in Dot c = true ->
  all_in Space blank = true ->
  all_in Space sp = true -> sp <> [] ->
  all_in Word nm = true -> nm <> [] ->
  all_in Space sp2 = true -> sp2 <> [] ->
  all_in Space ws2 = true ->
  all_in Dot p = true -> ~ In RPAREN p ->
  let attached := strip (comment_line c) in
  let func_text :=
    comment_line c ++ blank ++ txt "func" ++ sp ++ nm ++ ws2
    ++ txt "(" ++ p ++ txt ")" ++ rest in
  let struct_text :=
    comment_line c ++ blank ++ txt "type" ++ sp ++ nm ++ sp2
    ++ txt "struct" ++ ws2 ++ txt "{" ++ rest in
  attached <> []
  /\ (exists more,
        symbols_of file_path func_text
        = {| type_ := txt "function"; name := PyStr nm; params := PyStr p;
             doc := attached; source_file := file_path |} :: more)
  /\ (exists more,
        symbols_of file_path struct_text
        = map (func_symbol file_path) (func_matches struct_text)
          ++ {| type_ := txt "struct"; name := PyStr nm; params := PyStr [];
                doc := attached; source_file := file_path |} :: more).
Proof.
  intros Hc Hb Hsp Hsp' Hnm Hnm' Hsp2 Hsp2' Hws2 Hp Hp'.
  cbv zeta. split; [|split].
  - unfold comment_line. simpl app. apply strip_nonempty. reflexivity.
  - pose proof (doc_is_last_comment_line file_path [] c blank sp nm ws2 p rest)
      as H.
    unfold comment_block in H. cbn [map concat app] in H.
    rewrite app_nil_r in H.
    apply H; try assumption. repeat constructor. assumption.
  - assert (Hl : Forall (fun c => all_in Dot c = true) [c])
      by (repeat constructor; assumption).
    pose proof (struct_re_on_decl [c] blank sp nm sp2 ws2 rest
                  Hl Hb Hsp Hsp' Hnm Hnm' Hws2 Hsp2 Hsp2') as H.
    unfold comment_block in H. cbn [map concat] in H.
    rewrite app_nil_r in H.
    apply finditer_head in H. destruct H as [more H].
    unfold symbols_of, struct_matches. rewrite H.
    exists (map (struct_symbol file_path) more). reflexivity.
Qed.

Lemma C3_comment_attached_across_blank_lines_witness :
  let attached := txt "// Version of the wire format." in
  attached <> []
  /\ (exists more,
        symbols_of (txt "version.go") blank_line_go
        = {| type_ := txt "function"; name := PyStr (txt "Version");
             params := PyStr []; doc := attached;
             source_file := txt "version.go" |} :: more)
  /\ (exists more,
        symbols_of (txt "version.go")
          (comment_line (txt " Version of the wire format.") ++ [NL]
           ++ txt "type" ++ txt " " ++ txt "Version" ++ txt " "
           ++ txt "struct" ++ [] ++ txt "{" ++ txt " int {" ++ [NL])
        = map (func_symbol (txt "version.go"))
            (func_matches
               (comment_line (txt " Version of the wire format.") ++ [NL]
                ++ txt "type" ++ txt " " ++ txt "Version" ++ txt " "
                ++ txt "struct" ++ [] ++ txt "{" ++ txt " int {" ++ [NL]))
          ++ {| type_ := txt "struct"; name := PyStr (txt "Version");
                params := PyStr []; doc := attached;
                source_file := txt "version.go" |} :: more).
Proof.
  apply (C3_comment_attached_across_blank_lines
           (txt "version.go") (txt " Version of the wire format.") [NL]
           (txt " ") (txt "Version") (txt " ") [] [] (txt " int {" ++ [NL]));
    try reflexivity; try discriminate.
  simpl. tauto.
Defined.

Lemma first_occurrence_split (x : char) : forall p a r1 r2,
  p ++ x :: r1 = a ++ x :: r2 -> ~ In x p -> In x a ->
  exists b, a = p ++ x :: b.
Proof.
  induction p as [|c p IH]; intros a r1 r2 E Hp Ha.
  - destruct a as [|y a]; [contradiction|].
    simpl in E. inversion E; subst. now exists a.
  - destruct a as [|y a]; [contradiction|].
    simpl in E. inversion E; subst.
    destruct Ha as [->|Ha]; [exfalso; apply Hp; now left|].
    destruct (IH a r1 r2) as [b ->]; try assumption.
    + intros Hin. apply Hp. now right.
    + now exists b.
Qed.

(** C9. Whatever the text, the parameter text captured for a function
    match is the text between an opening parenthesis and the first closing
    parenthesis after it: the match ends on that parenthesis, and the
    captured text holds none.  So when the parameter list that opens there
    ([actual], closed further on in the text) itself contains a closing
    parenthesis, the captured text stops short of it: it is a strict
    prefix of the list. *)
Theorem C9_params_end_at_first_closing_parenthesis (content : text) (m : rmatch) :
  In m (func_matches content) ->
  exists before p after,
    content = before ++ txt "(" ++ p ++ txt ")" ++ after /\
    m_end m = length (before ++ txt "(" ++ p ++ txt ")") /\
    (forall file_path, params (func_symbol file_path m) = PyStr p) /\
    ~ In RPAREN p /\
    (forall actual tail,
        content = before ++ txt "(" ++ actual ++ txt ")" ++ tail ->
        In RPAREN actual ->
        exists b, actual = p ++ RPAREN :: b).
Proof.
  intros Hm. apply finditer_in in Hm.
  destruct Hm as (pre & suf & rest & -> & Hstart & Hmatch & Hend).
  apply func_match_inv in Hmatch.
  destruct Hmatch as (before & nm & p & g0 & -> & Hg & _ & _ & _ & Hp).
  exists (pre ++ before), p, rest. repeat split.
  - now rewrite <- app_assoc.
  - rewrite Hend, Hstart, !length_app. simpl. lia.
  - intros file_path. unfold func_symbol, group_val, group. simpl.
    rewrite Hg. reflexivity.
  - assumption.
  - intros actual tail E Ha.
    rewrite <- !app_assoc in E. do 2 apply app_inv_head in E.
    simpl in E. inversion E as [E'].
    eapply first_occurrence_split; eassumption.
Qed.

Lemma C9_params_end_at_first_closing_parenthesis_witness :
  In callback_match (func_matches callback_go)
  /\ exists before p after,
       callback_go = before ++ txt "(" ++ p ++ txt ")" ++ after /\
       m_end callback_match = length (before ++ txt "(" ++ p ++ txt ")") /\
       (forall file_path,
           params (func_symbol file_path callback_match) = PyStr p) /\
       ~ In RPAREN p /\
       (forall actual tail,
           callback_go = before ++ txt "(" ++ actual ++ txt ")" ++ tail ->
           In RPAREN actual ->
           exists b, actual = p ++ RPAREN :: b).
Proof.
  split.
  - vm_compute. left. reflexivity.
  - apply (C9_params_end_at_first_closing_parenthesis callback_go callback_match).
    vm_compute. left. reflexivity.
Defined.

(** On [func Apply(f func(int) int, x int) int {] the captured parameter
    text is [f func(int]. *)
Example callback_params :
  map params (symbols_of (txt "apply.go") callback_go)
  = [PyStr (txt "f func(int")].
Proof. vm_compute. reflexivity. Qed.

(** C10. A file whose only line is a comment holding a function
    declaration still gives a function record for it. *)
Theorem C10_commented_out_function_is_extracted (file_path : text) :
  exists c,
    all_in Dot c = true /\
    commented_out_go = comment_line c /\
    symbols_of file_path (comment_line c)
    = [ {| type_ := txt "function"; name := PyStr (txt "Foo");
           params := PyStr (txt "x int"); doc := [];
           source_file := file_path |} ].
Proof.
  exists (txt " func Foo(x int) {").
  repeat split; vm_compute; reflexivity.
Qed.

(** C4, as the claim states it, fails: a struct declared above a function
    gives the function record first, so the records are not in the order
    of the positions of their declarations in the text. *)
Lemma C4_counterexample :
  map type_ (symbols_of (txt "point.go") struct_first_go)
  = [txt "function"; txt "struct"]
  /\ match_positions struct_first_go = [21; 0]
  /\ ~ StronglySorted le (match_positions struct_first_go).
Proof.
  split; [vm_compute; reflexivity|]. split; [vm_compute; reflexivity|].
  intros H. vm_compute in H. inversion H as [|a l _ Hall]; subst.
  inversion Hall as [|b l' Hle _]; subst. lia.
Qed.

(** C4, amended. The records of one file are those of the function pass,
    in the order of their positions in the text, followed by those of the
    struct pass, in the order of their positions in the text. *)
Theorem C4_records_in_pass_then_match_order (file_path content : text) :
  exists funcs structs,
    symbols_of file_path content = funcs ++ structs /\
    funcs = map (func_symbol file_path) (func_matches content) /\
    structs = map (struct_symbol file_path) (struct_matches content) /\
    Forall (fun r => type_ r = txt "function") funcs /\
    Forall (fun r => type_ r = txt "struct") structs /\
    StronglySorted lt (map m_start (func_matches content)) /\
    StronglySorted lt (map m_start (struct_matches content)).
Proof.
  eexists _, _. split; [reflexivity|]. split; [reflexivity|].
  split; [reflexivity|]. repeat split.
  - apply Forall_map, Forall_forall. reflexivity.
  - apply Forall_map, Forall_forall. reflexivity.
  - apply finditer_sorted.
  - apply finditer_sorted.
Qed.

(** The walk of the sample tree meets four files; the two [.go] files
    give two records each. *)
Example sample_walk :
  map (fun f => snd (fst f)) (walked_files sample_world)
  = [txt "main.go"; txt "README.md"; txt "point.go"; txt "notes.txt"]
  /\ map source_file sample_chunks
     = [txt "./backend/main.go"; txt "./backend/main.go";
        txt "./backend/pkg/point.go"; txt "./backend/pkg/point.go"].
Proof. split; vm_compute; reflexivity. Qed.

(** C7. A record of the output whose type is [struct] was made by the
    struct pass, and its [params] is the empty string. *)
Theorem C7_struct_records_have_empty_params
    (w : world) (chunks : list symbol) (r : symbol) :
  collect w = Ok chunks -> In r chunks -> type_ r = txt "struct" ->
  params r = PyStr []
  /\ exists file_path content m,
       In m (struct_matches content) /\ r = struct_symbol file_path m.
Proof.
  intros Hc Hr Ht.
  destruct (collect_chunk_origin w chunks r Hc Hr)
    as (root & file & content & _ & Hin).
  unfold symbols_of in Hin. apply in_app_or in Hin.
  destruct Hin as [Hin|Hin]; apply in_map_iff in Hin;
    destruct Hin as (m & <- & Hm).
  - simpl in Ht. vm_compute in Ht. discriminate Ht.
  - split; [reflexivity|]. now exists (path_join root file), content, m.
Qed.

Lemma C7_struct_records_have_empty_params_witness :
  let r :=
    nth 1 sample_chunks
      (struct_symbol [] {| m_start := 0; m_end := 0; m_groups := [] |}) in
  type_ r = txt "struct"
  /\ params r = PyStr []
  /\ exists file_path content m,
       In m (struct_matches content) /\ r = struct_symbol file_path m.
Proof.
  split; [vm_compute; reflexivity|].
  apply (C7_struct_records_have_empty_params sample_world sample_chunks).
  - vm_compute. reflexivity.
  - vm_compute. right. left. reflexivity.
  - vm_compute. reflexivity.
Defined.

(** C2, as the claim states it, fails: with no [./backend] the run ends
    normally and has written the output file. *)
Lemma C2_counterexample :
  ~ (exit_status (main no_backend) <> 0 /\ output_file (main no_backend) = None).
Proof. vm_compute. intros [H _]. now apply H. Qed.

(** C2, amended. When [./backend] is missing or cannot be listed,
    [os.walk] yields nothing and raises nothing: no file is read, and the
    run goes on to write the empty array; it ends normally, unless the
    output file itself cannot be opened. *)
Theorem C2_missing_root_writes_empty_array (w : world) :
  backend w = None ->
  walked_files w = []
  /\ collect w = Ok []
  /\ main w = (if can_write w then Written (txt "[]") else Crashed WriteError).
Proof.
  intros H. unfold walked_files, main, collect. rewrite H. simpl.
  repeat split.
Qed.

Lemma C2_missing_root_writes_empty_array_witness :
  walked_files no_backend = []
  /\ collect no_backend = Ok []
  /\ main no_backend = Written (txt "[]").
Proof.
  apply (C2_missing_root_writes_empty_array no_backend). reflexivity.
Defined.

(** ** Reading the output back *)

Lemma count_from_in (x : N) : forall len i,
  (i <= x < i + N.of_nat len)%N -> In x (count_from i len).
Proof.
  induction len as [|len IH]; intros i H; [lia|].
  simpl. destruct (N.eq_dec i x) as [->|Hne]; [now left|].
  right. apply IH. lia.
Qed.

Lemma below_in (n x : N) : (x < n)%N -> In x (below n).
Proof. intros H. apply count_from_in. lia. Qed.

Lemma escape_u_hex4 (n : N) :
  (n < 65536)%N ->
  exists h1 h2 h3 h4,
    escape_u n = [92; 117; h1; h2; h3; h4]%N /\ hex4 h1 h2 h3 h4 = Some n.
Proof.
  intros H.
  assert (A : forallb escape_u_reads_back (below 65536%N) = true)
    by (vm_compute; reflexivity).
  rewrite forallb_forall in A. specialize (A n (below_in 65536%N n H)).
  unfold escape_u_reads_back in A. unfold escape_u in *.
  do 4 eexists. split; [reflexivity|].
  simpl in A. destruct (hex4 _ _ _ _) as [m|]; [|discriminate].
  apply N.eqb_eq in A. now subst.
Qed.

Lemma pair_of_surrogates (c : char) :
  is_high_surrogate (fst (pair_of c)) = true
  /\ is_low_surrogate (snd (pair_of c)) = true.
Proof.
  assert (A : forallb surrogate_halves_ok (below 1024%N) = true)
    by (vm_compute; reflexivity).
  rewrite forallb_forall in A.
  assert (B : forall a, In (N.land a 1023) (below 1024%N)).
  { intros a. apply below_in. change 1023%N with (N.ones 10).
    rewrite N.land_ones. apply N.mod_lt. discriminate. }
  unfold pair_of. cbn [fst snd]. split.
  - specialize (A _ (B (N.shiftr (c - 65536) 10))).
    unfold surrogate_halves_ok in A. apply andb_true_iff in A.
    exact (proj1 A).
  - specialize (A _ (B (c - 65536)%N)).
    unfold surrogate_halves_ok in A. apply andb_true_iff in A.
    exact (proj2 A).
Qed.

Lemma high_not_low (n : N) : is_high_surrogate n = true -> is_low_surrogate n = false.
Proof.
  unfold is_high_surrogate, is_low_surrogate. rewrite in_range_spec.
  intros H. destruct (in_range 56320 57343 n) eqn:E; [|reflexivity].
  apply in_range_spec in E. lia.
Qed.

Lemma surrogate_small (n : N) :
  is_high_surrogate n = true \/ is_low_surrogate n = true -> (n < 65536)%N.
Proof.
  unfold is_high_surrogate, is_low_surrogate. rewrite !in_range_spec. lia.
Qed.

(** The shapes of what [escape_char] writes. *)
Inductive escaped (c : char) : text -> Prop :=
| Esc_short e :
    (e =? 117)%N = false -> unescape e = Some c -> (c < 32 \/ c = 34 \/ c = 92)%N ->
    escaped c [92%N; e]
| Esc_plain :
    (32 <= c <= 126)%N -> c <> 34%N -> c <> 92%N -> escaped c [c]
| Esc_u : (c < 65536)%N -> escaped c (escape_u c)
| Esc_pair :
    (65536 <= c)%N ->
    escaped c (escape_u (fst (pair_of c)) ++ escape_u (snd (pair_of c))).

Lemma escape_char_shape (c : char) : escaped c (escape_char c).
Proof.
  unfold escape_char.
  destruct (N.eqb_spec c 34) as [->|]; [now apply Esc_short; auto|].
  destruct (N.eqb_spec c 92) as [->|]; [now apply Esc_short; auto|].
  destruct (N.eqb_spec c 10) as [->|]; [apply Esc_short; auto; lia|].
  destruct (N.eqb_spec c 13) as [->|]; [apply Esc_short; auto; lia|].
  destruct (N.eqb_spec c 9) as [->|]; [apply Esc_short; auto; lia|].
  destruct (N.eqb_spec c 12) as [->|]; [apply Esc_short; auto; lia|].
  destruct (N.eqb_spec c 8) as [->|]; [apply Esc_short; auto; lia|].
  destruct (in_range 32 126 c) eqn:Hr.
  - apply in_range_spec in Hr. now apply Esc_plain.
  - destruct (N.ltb_spec c 65536).
    + now apply Esc_u.
    + now apply Esc_pair.
Qed.

(** [scan_string], one item at a time. *)
Lemma scan_quote s : scan_string (34%N :: s) = Some ([], s).
Proof. reflexivity. Qed.

Lemma scan_plain c s :
  (32 <= c)%N -> c <> 34%N -> c <> 92%N ->
  scan_string (c :: s) = cons_char c (scan_string s).
Proof.
  intros H1 H2 H3. cbn [scan_string].
  apply N.eqb_neq in H2, H3. rewrite H2, H3.
  destruct (N.ltb_spec c 32); [lia | reflexivity].
Qed.

Lemma scan_short e x s :
  (e =? 117)%N = false -> unescape e = Some x ->
  scan_string (92%N :: e :: s) = cons_char x (scan_string s).
Proof.
  intros He Hx.
  change (scan_string (92%N :: e :: s))
    with (if (e =? 117)%N
          then match s with
               | h1 :: h2 :: h3 :: h4 :: s6 =>
                   match hex4 h1 h2 h3 h4 with
                   | None => None
                   | Some uni =>
                       if is_high_surrogate uni then lookahead scan_string uni s6
                       else cons_char uni (scan_string s6)
                   end
               | _ => None
               end
          else match unescape e with
               | Some x => cons_char x (scan_string s)
               | None => None
               end).
  now rewrite He, Hx.
Qed.

Lemma scan_u h1 h2 h3 h4 s6 :
  scan_string (92%N :: 117%N :: h1 :: h2 :: h3 :: h4 :: s6) =
  match hex4 h1 h2 h3 h4 with
  | None => None
  | Some uni =>
      if is_high_surrogate uni then lookahead scan_string uni s6
      else cons_char uni (scan_string s6)
  end.
Proof. reflexivity. Qed.

Lemma scan_escape_u n s :
  (n < 65536)%N ->
  scan_string (escape_u n ++ s) =
  if is_high_surrogate n then lookahead scan_string n s
  else cons_char n (scan_string s).
Proof.
  intros H. destruct (escape_u_hex4 n H) as (h1 & h2 & h3 & h4 & -> & E).
  simpl app. now rewrite scan_u, E.
Qed.

Lemma escape_u_head n s :
  exists h1 h2 h3 h4,
    escape_u n ++ s = 92%N :: 117%N :: h1 :: h2 :: h3 :: h4 :: s.
Proof. unfold escape_u. do 4 eexists. reflexivity. Qed.

Lemma escaped_not_low c e :
  escaped c e -> (c < 65536)%N \/ is_low_surrogate c = false.
Proof.
  intros H. destruct (N.ltb_spec c 65536); [now left|right].
  destruct (is_low_surrogate c) eqn:E; [|reflexivity].
  assert (c < 65536)%N by (apply surrogate_small; now right). lia.
Qed.

(** After a high surrogate escape, the scan joins it with the next
    character exactly when that character is a low surrogate. *)
Lemma lookahead_escaped uni t rest :
  lookahead scan_string uni (flat_map escape_char t ++ 34%N :: rest) =
  match t with
  | d :: t' =>
      if is_low_surrogate d then
        cons_char (join_surrogates uni d)
                  (scan_string (flat_map escape_char t' ++ 34%N :: rest))
      else
        cons_char uni
                  (scan_string (flat_map escape_char t ++ 34%N :: rest))
  | [] => cons_char uni (scan_string (flat_map escape_char t ++ 34%N :: rest))
  end.
Proof.
  destruct t as [|d t'].
  - cbn [flat_map app]. unfold lookahead.
    destruct rest as [|u s8]; reflexivity.
  - cbn [flat_map]. rewrite <- app_assoc.
    set (tl := flat_map escape_char t' ++ 34%N :: rest).
    destruct (escape_char_shape d) as [e He Hx Hd|Hr H34 H92|Hd|Hd].
    + assert (L : is_low_surrogate d = false).
      { unfold is_low_surrogate.
        destruct (in_range 56320 57343 d) eqn:E; [|reflexivity].
        apply in_range_spec in E. lia. }
      rewrite L. cbn [app]. unfold lookahead.
      rewrite He, andb_false_r. reflexivity.
    + assert (L : is_low_surrogate d = false).
      { unfold is_low_surrogate.
        destruct (in_range 56320 57343 d) eqn:E; [|reflexivity].
        apply in_range_spec in E. lia. }
      rewrite L. cbn [app]. unfold lookahead.
      apply N.eqb_neq in H92. rewrite H92.
      destruct tl; reflexivity.
    + destruct (escape_u_hex4 d Hd) as (h1 & h2 & h3 & h4 & E & Hh).
      rewrite E. cbn [app]. unfold lookahead at 1.
      rewrite !N.eqb_refl. cbn [andb].
      rewrite Hh. reflexivity.
    + assert (L : is_low_surrogate d = false).
      { unfold is_low_surrogate.
        destruct (in_range 56320 57343 d) eqn:E; [|reflexivity].
        apply in_range_spec in E. lia. }
      rewrite L. rewrite <- app_assoc.
      destruct (pair_of_surrogates d) as [Hhi Hlo].
      assert (Hs : (fst (pair_of d) < 65536)%N)
        by (apply surrogate_small; now left).
      destruct (escape_u_hex4 _ Hs) as (h1 & h2 & h3 & h4 & E & Hh).
      apply high_not_low in Hhi.
      set (hi := fst (pair_of d)) in *.
      set (tl2 := escape_u (snd (pair_of d)) ++ tl).
      rewrite E. cbn [app]. unfold lookahead at 1.
      rewrite !N.eqb_refl. cbn [andb].
      rewrite Hh, Hhi. reflexivity.
Qed.

Lemma reread_cons_plain c t :
  is_high_surrogate c = false -> (c < 65536)%N -> reread (c :: t) = c :: reread t.
Proof.
  intros H L. simpl. rewrite H. unfold reread_char.
  apply N.ltb_lt in L. now rewrite L.
Qed.

(** What was written for a string reads back as [reread] of it. *)
Lemma scan_escaped_len (n : nat) : forall t rest,
  length t <= n ->
  scan_string (flat_map escape_char t ++ 34%N :: rest) = Some (reread t, rest).
Proof.
  induction n as [|n IH]; intros t rest Hn.
  - destruct t; [apply scan_quote | simpl in Hn; lia].
  - destruct t as [|c t]; [apply scan_quote|].
    simpl in Hn. assert (Ht : length t <= n) by lia.
    cbn [flat_map]. rewrite <- app_assoc.
    destruct (escape_char_shape c) as [e He Hx Hc|Hr H34 H92|Hc|Hc].
    + cbn [app]. rewrite (scan_short e c _ He Hx), (IH t rest Ht).
      rewrite reread_cons_plain; [reflexivity| |lia].
      unfold is_high_surrogate.
      destruct (in_range 55296 56319 c) eqn:E; [|reflexivity].
      apply in_range_spec in E. lia.
    + cbn [app]. rewrite scan_plain by (try assumption; lia).
      rewrite (IH t rest Ht).
      rewrite reread_cons_plain; [reflexivity| |lia].
      unfold is_high_surrogate.
      destruct (in_range 55296 56319 c) eqn:E; [|reflexivity].
      apply in_range_spec in E. lia.
    + rewrite scan_escape_u by assumption.
      destruct (is_high_surrogate c) eqn:Hh.
      * rewrite lookahead_escaped. simpl reread. rewrite Hh.
        destruct t as [|d t']; [cbn [flat_map app]; now rewrite scan_quote|].
        destruct (is_low_surrogate d).
        -- rewrite (IH t' rest) by (simpl in Ht; lia). reflexivity.
        -- rewrite (IH (d :: t') rest Ht). reflexivity.
      * rewrite (IH t rest Ht). now rewrite reread_cons_plain.
    + rewrite <- app_assoc.
      assert (Hnh : is_high_surrogate c = false).
      { unfold is_high_surrogate.
        destruct (in_range 55296 56319 c) eqn:E'; [|reflexivity].
        apply in_range_spec in E'. lia. }
      assert (Hr : reread (c :: t)
                   = join_surrogates (fst (pair_of c)) (snd (pair_of c))
                     :: reread t).
      { cbn [reread]. rewrite Hnh. unfold reread_char.
        destruct (N.ltb_spec c 65536); [lia|]. reflexivity. }
      rewrite Hr. clear Hr.
      destruct (pair_of_surrogates c) as [Hhi Hlo].
      assert (Hs1 : (fst (pair_of c) < 65536)%N)
        by (apply surrogate_small; now left).
      assert (Hs : (snd (pair_of c) < 65536)%N)
        by (apply surrogate_small; now right).
      destruct (escape_u_hex4 _ Hs) as (h1 & h2 & h3 & h4 & E & Hx).
      set (hi := fst (pair_of c)) in *. set (lo := snd (pair_of c)) in *.
      rewrite scan_escape_u by assumption.
      rewrite Hhi, E. cbn [app]. unfold lookahead.
      rewrite !N.eqb_refl. cbn [andb].
      rewrite Hx, Hlo, (IH t rest Ht). reflexivity.
Qed.

Lemma scan_encoded t rest :
  scan_string (flat_map escape_char t ++ 34%N :: rest) = Some (reread t, rest).
Proof. apply (scan_escaped_len (length t)). lia. Qed.

Lemma reread_nonempty t : t <> [] -> reread t <> [].
Proof.
  destruct t as [|c t]; [congruence|]. intros _. simpl.
  destruct (is_high_surrogate c); [|discriminate].
  destruct t as [|d t]; [discriminate|].
  destruct (is_low_surrogate d); discriminate.
Qed.

(** The structure around the strings. *)
Lemma skip_ws_stop c s : is_json_ws c = false -> skip_ws (c :: s) = c :: s.
Proof. intros H. simpl. now rewrite H. Qed.

Lemma skip_ws_space s : skip_ws (32%N :: s) = skip_ws s.
Proof. reflexivity. Qed.

Lemma skip_ws_blanks n s : skip_ws (repeat 32%N n ++ s) = skip_ws s.
Proof. induction n as [|n IH]; [reflexivity|]. simpl. exact IH. Qed.

Lemma skip_ws_indent level s : skip_ws (newline_indent level ++ s) = skip_ws s.
Proof. unfold newline_indent. cbn [app skip_ws]. apply skip_ws_blanks. Qed.

Lemma encode_string_app t rest :
  encode_string t ++ rest = 34%N :: flat_map escape_char t ++ 34%N :: rest.
Proof. unfold encode_string. cbn [app]. now rewrite <- app_assoc. Qed.

Lemma parse_value_string f t rest :
  parse_value (S f) (encode_string t ++ rest) = Some (JStr (reread t), rest).
Proof.
  rewrite encode_string_app. cbn [parse_value].
  change (34 =? 34)%N with true. cbv iota. now rewrite scan_encoded.
Qed.

Lemma parse_value_null f rest :
  parse_value (S f) (txt "null" ++ rest) = Some (JNull, rest).
Proof. destruct rest; reflexivity. Qed.

Lemma parse_value_pyval f level v rest :
  parse_value (S f) (encode level (json_of_pyval v) ++ rest)
  = Some (reread_pyval v, rest).
Proof.
  destruct v as [|t]; [apply parse_value_null | apply parse_value_string].
Qed.

Lemma skip_ws_pyval level v s :
  skip_ws (encode level (json_of_pyval v) ++ s)
  = encode level (json_of_pyval v) ++ s.
Proof. destruct v as [|t]; reflexivity. Qed.

Lemma join_cons2 sep (x y : text) l :
  join sep (x :: y :: l) = x ++ sep ++ join sep (y :: l).
Proof. reflexivity. Qed.

Lemma member_text_head level kv s :
  exists tl, member_text level kv ++ s = 34%N :: tl.
Proof. unfold member_text, encode_string. eexists. reflexivity. Qed.

Lemma join_members_head sep level kv kvs s :
  exists tl, join sep (map (member_text level) (kv :: kvs)) ++ s = 34%N :: tl.
Proof.
  destruct kvs as [|kv' kvs]; cbn [map].
  - apply member_text_head.
  - rewrite join_cons2, <- app_assoc. apply member_text_head.
Qed.

Lemma skip_ws_members sep level kv kvs s :
  skip_ws (join sep (map (member_text level) (kv :: kvs)) ++ s)
  = join sep (map (member_text level) (kv :: kvs)) ++ s.
Proof.
  destruct (join_members_head sep level kv kvs s) as [tl E].
  rewrite E. now apply skip_ws_stop.
Qed.

(** One member, then what [k] says about what follows its value. *)
Lemma parse_members_step f n level kv tail :
  parse_members (parse_value (S f)) (S n) (member_text level kv ++ tail) =
  match skip_ws tail with
  | d :: r3 =>
      if (d =? 125)%N then Some ([reread_member kv], r3)
      else if (d =? 44)%N then
        match parse_members (parse_value (S f)) n (skip_ws r3) with
        | Some (ms, r4) => Some (reread_member kv :: ms, r4)
        | None => None
        end
      else None
  | [] => None
  end.
Proof.
  destruct kv as [k v]. unfold member_text. cbn [fst snd].
  rewrite <- !app_assoc, encode_string_app.
  cbn [parse_members]. change (34 =? 34)%N with true. cbv iota.
  rewrite scan_encoded.
  change (txt ": " ++ encode level (json_of_pyval v) ++ tail)
    with (58%N :: 32%N :: encode level (json_of_pyval v) ++ tail).
  cbn [skip_ws]. change (is_json_ws 58%N) with false.
  change (is_json_ws 32%N) with true. cbv iota.
  change (58 =? 58)%N with true. cbv iota.
  rewrite skip_ws_space, skip_ws_pyval, parse_value_pyval. reflexivity.
Qed.

Lemma parse_members_ok f level level' : forall kvs n rest,
  kvs <> [] -> length kvs <= n ->
  parse_members (parse_value (S f)) n
    (join (txt "," ++ newline_indent level) (map (member_text level) kvs)
     ++ newline_indent level' ++ txt "}" ++ rest)
  = Some (map reread_member kvs, rest).
Proof.
  induction kvs as [|kv kvs IH]; intros n rest Hne Hn; [congruence|].
  destruct n as [|n]; [simpl in Hn; lia|].
  destruct kvs as [|kv' kvs].
  - cbn [map join]. rewrite parse_members_step, skip_ws_indent.
    reflexivity.
  - cbn [map]. rewrite join_cons2, <- !app_assoc.
    rewrite parse_members_step.
    change (skip_ws (txt "," ++ ?x)) with (44%N :: x).
    cbn [app skip_ws]. change (is_json_ws 44%N) with false. cbv iota.
    change (44 =? 125)%N with false. change (44 =? 44)%N with true. cbv iota.
    rewrite skip_ws_indent.
    change (member_text level kv' :: map (member_text level) kvs)
      with (map (member_text level) (kv' :: kvs)).
    rewrite skip_ws_members.
    rewrite IH; [reflexivity | discriminate | simpl in *; lia].
Qed.

Lemma encode_symbol level r :
  encode level (json_of_symbol r) =
  txt "{" ++ newline_indent (S level)
  ++ join (txt "," ++ newline_indent (S level))
          (map (member_text (S level)) (fields r))
  ++ newline_indent level ++ txt "}".
Proof. reflexivity. Qed.

Lemma reread_symbol_members r :
  reread_symbol r = JObj (map reread_member (fields r)).
Proof. reflexivity. Qed.

Lemma parse_value_obj fuel s1 :
  parse_value (S fuel) (123%N :: s1) =
  match skip_ws s1 with
  | d :: s2 =>
      if (d =? 125)%N then Some (JObj [], s2)
      else
        match parse_members (parse_value fuel) fuel (d :: s2) with
        | Some (ms, r) => Some (JObj ms, r)
        | None => None
        end
  | [] => None
  end.
Proof. reflexivity. Qed.

Lemma parse_value_arr fuel s1 :
  parse_value (S fuel) (91%N :: s1) =
  match skip_ws s1 with
  | d :: s2 =>
      if (d =? 93)%N then Some (JArr [], s2)
      else
        match parse_items (parse_value fuel) fuel (d :: s2) with
        | Some (vs, r) => Some (JArr vs, r)
        | None => None
        end
  | [] => None
  end.
Proof. reflexivity. Qed.

(** The object written for a record reads back as [reread_symbol]. *)
Lemma parse_value_symbol f level r rest :
  5 <= f ->
  parse_value (S (S f)) (encode level (json_of_symbol r) ++ rest)
  = Some (reread_symbol r, rest).
Proof.
  intros Hf. rewrite encode_symbol, reread_symbol_members.
  rewrite <- !app_assoc.
  change (txt "{" ++ ?x) with (123%N :: x).
  rewrite parse_value_obj, skip_ws_indent.
  unfold fields at 1 2. rewrite skip_ws_members.
  match goal with
  | |- context [match ?T with [] => None | _ :: _ => _ end] =>
      destruct T as [|d s2] eqn:E0
  end.
  - destruct (join_members_head (txt "," ++ newline_indent (S level)) (S level)
                (txt "type", PyStr (type_ r))
                [(txt "name", name r); (txt "params", params r);
                 (txt "doc", PyStr (doc r));
                 (txt "source_file", PyStr (source_file r))]
                (newline_indent level ++ txt "}" ++ rest)) as [tl E].
    rewrite E0 in E. discriminate E.
  - assert (Hd : d = 34%N).
    { destruct (join_members_head (txt "," ++ newline_indent (S level)) (S level)
                (txt "type", PyStr (type_ r))
                [(txt "name", name r); (txt "params", params r);
                 (txt "doc", PyStr (doc r));
                 (txt "source_file", PyStr (source_file r))]
                (newline_indent level ++ txt "}" ++ rest)) as [tl E].
      rewrite E0 in E. now inversion E. }
    rewrite <- E0. rewrite Hd. change (34 =? 125)%N with false. cbv iota.
    rewrite parse_members_ok; [reflexivity | discriminate | simpl; lia].
Qed.

Lemma symbol_text_head level r s :
  exists tl, encode level (json_of_symbol r) ++ s = 123%N :: tl.
Proof. rewrite encode_symbol. eexists. reflexivity. Qed.

Lemma join_symbols_head sep level r chunks s :
  exists tl,
    join sep (map (fun r => encode level (json_of_symbol r)) (r :: chunks)) ++ s
    = 123%N :: tl.
Proof.
  destruct chunks as [|r' chunks]; cbn [map].
  - apply symbol_text_head.
  - rewrite join_cons2, <- app_assoc. apply symbol_text_head.
Qed.

Lemma skip_ws_symbols sep level r chunks s :
  skip_ws (join sep (map (fun r => encode level (json_of_symbol r)) (r :: chunks))
           ++ s)
  = join sep (map (fun r => encode level (json_of_symbol r)) (r :: chunks)) ++ s.
Proof.
  destruct (join_symbols_head sep level r chunks s) as [tl E].
  rewrite E. now apply skip_ws_stop.
Qed.

Lemma parse_items_ok pv level level' :
  (forall r rest,
      pv (encode level (json_of_symbol r) ++ rest) = Some (reread_symbol r, rest)) ->
  forall chunks n rest,
    chunks <> [] -> length chunks <= n ->
    parse_items pv n
      (join (txt "," ++ newline_indent level)
            (map (fun r => encode level (json_of_symbol r)) chunks)
       ++ newline_indent level' ++ txt "]" ++ rest)
    = Some (map reread_symbol chunks, rest).
Proof.
  intros Hpv. induction chunks as [|r chunks IH]; intros n rest Hne Hn;
    [congruence|].
  destruct n as [|n]; [simpl in Hn; lia|].
  destruct chunks as [|r' chunks].
  - cbn [map join parse_items]. rewrite Hpv, skip_ws_indent. reflexivity.
  - cbn [map]. rewrite join_cons2, <- !app_assoc.
    cbn [parse_items]. rewrite Hpv.
    change (skip_ws (txt "," ++ ?x)) with (44%N :: x).
    change (44 =? 93)%N with false. change (44 =? 44)%N with true. cbv iota.
    rewrite skip_ws_indent.
    change (encode level (json_of_symbol r')
            :: map (fun r => encode level (json_of_symbol r)) chunks)
      with (map (fun r => encode level (json_of_symbol r)) (r' :: chunks)).
    rewrite skip_ws_symbols.
    rewrite IH; [reflexivity | discriminate | simpl in *; lia].
Qed.

Lemma length_newline_indent level : length (newline_indent level) = 1 + 2 * level.
Proof. unfold newline_indent. simpl length. now rewrite repeat_length. Qed.

Lemma length_symbol_text level r :
  7 <= length (encode level (json_of_symbol r)).
Proof.
  rewrite encode_symbol, !length_app, !length_newline_indent. simpl. lia.
Qed.

Lemma length_join_symbols sep level chunks :
  7 * length chunks
  <= length (join sep (map (fun r => encode level (json_of_symbol r)) chunks)).
Proof.
  induction chunks as [|r chunks IH]; [simpl; lia|].
  pose proof (length_symbol_text level r) as H.
  destruct chunks as [|r' chunks].
  - cbn [map join length]. lia.
  - cbn [map]. rewrite join_cons2, !length_app.
    cbn [map] in IH. cbn [length] in *. lia.
Qed.

Lemma json_dump_cons r chunks :
  json_dump (r :: chunks) =
  txt "[" ++ newline_indent 1
  ++ join (txt "," ++ newline_indent 1)
          (map (fun r => encode 1 (json_of_symbol r)) (r :: chunks))
  ++ newline_indent 0 ++ txt "]".
Proof.
  unfold json_dump. rewrite <- (map_map json_of_symbol (encode 1)).
  reflexivity.
Qed.

(** The document written for [go_chunks] reads back as the array of the
    objects of its records. *)
Lemma json_loads_dump chunks :
  json_loads (json_dump chunks) = Some (JArr (map reread_symbol chunks)).
Proof.
  destruct chunks as [|r chunks]; [reflexivity|].
  unfold json_loads. rewrite json_dump_cons.
  set (body := join (txt "," ++ newline_indent 1)
                 (map (fun r => encode 1 (json_of_symbol r)) (r :: chunks))).
  assert (HL : exists f,
             length (txt "[" ++ newline_indent 1 ++ body
                     ++ newline_indent 0 ++ txt "]") = S (S f)
             /\ 5 <= f /\ length (r :: chunks) <= S f).
  { pose proof (length_join_symbols (txt "," ++ newline_indent 1) 1
                  (r :: chunks)) as H.
    fold body in H. rewrite !length_app, !length_newline_indent.
    change (length (txt "[")) with 1. change (length (txt "]")) with 1.
    cbn [length] in H.
    exists (length body + 4). cbn [length]. clearbody body. lia. }
  destruct HL as (f & HL & Hf & Hn). rewrite HL.
  change (txt "[" ++ ?x) with (91%N :: x).
  rewrite skip_ws_stop by reflexivity.
  rewrite parse_value_arr, skip_ws_indent.
  unfold body at 1. rewrite skip_ws_symbols. fold body.
  destruct (body ++ newline_indent 0 ++ txt "]") as [|d s2] eqn:E0.
  - destruct (join_symbols_head (txt "," ++ newline_indent 1) 1 r chunks
                (newline_indent 0 ++ txt "]")) as [tl E].
    fold body in E. rewrite E0 in E. discriminate E.
  - assert (Hd : d = 123%N).
    { destruct (join_symbols_head (txt "," ++ newline_indent 1) 1 r chunks
                  (newline_indent 0 ++ txt "]")) as [tl E].
      fold body in E. rewrite E0 in E. now inversion E. }
    rewrite <- E0, Hd. change (123 =? 93)%N with false. cbv iota.
    rewrite <- (app_nil_r (txt "]")). unfold body.
    rewrite (parse_items_ok (parse_value (S (S f))) 1 0);
      [reflexivity | | discriminate | lia].
    intros r0 rest. now apply parse_value_symbol.
Qed.

(** ** Names and paths of the records *)

Lemma symbols_of_fields file_path content r :
  In r (symbols_of file_path content) ->
  source_file r = file_path
  /\ exists nm, name r = PyStr nm /\ nm <> [] /\ all_in Word nm = true.
Proof.
  unfold symbols_of. intros H. apply in_app_or in H.
  destruct H as [H|H]; apply in_map_iff in H; destruct H as (m & <- & Hm);
    apply finditer_in in Hm;
    destruct Hm as (pre & suf & rest & _ & _ & Hmatch & _);
    (split; [reflexivity|]).
  - apply func_match_inv in Hmatch.
    destruct Hmatch as (before & nm & p & g0 & _ & Hg & Hne & Hw & _).
    exists nm. repeat split; try assumption.
    unfold func_symbol, group_val, group. simpl. now rewrite Hg.
  - apply struct_match_inv in Hmatch.
    destruct Hmatch as (nm & g0 & Hg & Hne & Hw & _).
    exists nm. repeat split; try assumption.
    unfold struct_symbol, group_val, group. simpl. now rewrite Hg.
Qed.

Lemma endswith_go_nonempty file : endswith file (txt ".go") = true -> file <> [].
Proof. intros H ->. discriminate H. Qed.

Lemma path_join_nonempty root file : file <> [] -> path_join root file <> [].
Proof.
  intros Hf. unfold path_join.
  destruct (startswith file (txt "/")); [assumption|].
  destruct root as [|c root]; [assumption|].
  destruct (endswith (c :: root) (txt "/")); discriminate.
Qed.

Lemma chunk_fields w chunks r :
  collect w = Ok chunks -> In r chunks ->
  source_file r <> []
  /\ exists nm, name r = PyStr nm /\ nm <> [].
Proof.
  intros Hc Hr.
  destruct (collect_chunk_origin w chunks r Hc Hr)
    as (root & file & content & Hgo & Hin).
  apply symbols_of_fields in Hin. destruct Hin as (-> & nm & Hn & Hne & _).
  split.
  - apply path_join_nonempty. now apply endswith_go_nonempty.
  - now exists nm.
Qed.

Lemma reread_symbol_well_formed r nm :
  name r = PyStr nm -> nm <> [] -> source_file r <> [] ->
  well_formed_object (reread_symbol r).
Proof.
  intros Hn Hne Hs. unfold well_formed_object. split; [reflexivity|].
  split.
  - exists (reread nm). split; [|now apply reread_nonempty].
    unfold reread_symbol. rewrite Hn. reflexivity.
  - exists (reread (source_file r)). split; [|now apply reread_nonempty].
    unfold reread_symbol. destruct (name r), (params r); reflexivity.
Qed.

(** C8. The document written by a run that reaches its end reads back
    as an array with one object per record; each object has exactly the
    keys [type], [name], [params], [doc] and [source_file], in that order,
    and holds non-empty strings under [name] and [source_file]. *)
Theorem C8_output_reads_back (w : world) (out : text) :
  main w = Written out ->
  exists chunks,
    collect w = Ok chunks /\
    out = json_dump chunks /\
    json_loads out = Some (JArr (map reread_symbol chunks)) /\
    Forall well_formed_object (map reread_symbol chunks).
Proof.
  unfold main. intros H.
  destruct (collect w) as [chunks|e] eqn:Hc; [|discriminate].
  destruct (can_write w); [|discriminate].
  inversion H; subst. exists chunks.
  split; [reflexivity|]. split; [reflexivity|].
  split; [apply json_loads_dump|].
  apply Forall_map, Forall_forall. intros r Hr.
  destruct (chunk_fields w chunks r Hc Hr) as (Hs & nm & Hn & Hne).
  now apply (reread_symbol_well_formed r nm).
Qed.

Lemma C8_output_reads_back_witness :
  main sample_world = Written sample_output
  /\ exists chunks,
       collect sample_world = Ok chunks /\
       sample_output = json_dump chunks /\
       json_loads sample_output = Some (JArr (map reread_symbol chunks)) /\
       Forall well_formed_object (map reread_symbol chunks).
Proof.
  split.
  - vm_compute. reflexivity.
  - apply (C8_output_reads_back sample_world sample_output).
    vm_compute. reflexivity.
Defined.

(** ** Exact round trip on decoded text *)

Lemma lor_shiftl_disjoint (a b : N) :
  (b < 1024)%N -> N.lor (N.shiftl a 10) b = (a * 1024 + b)%N.
Proof.
  intros Hb.
  assert (Z : N.land (N.shiftl a 10) b = 0%N).
  { apply N.bits_inj_0. intros i. rewrite N.land_spec.
    destruct (N.lt_ge_cases i 10) as [Hi|Hi].
    - now rewrite N.shiftl_spec_low.
    - rewrite andb_comm.
      destruct (N.eq_dec b 0) as [->|Hnz]; [now rewrite N.bits_0|].
      rewrite N.bits_above_log2; [reflexivity|].
      apply N.log2_lt_pow2; [lia|].
      apply N.lt_le_trans with (2 ^ 10)%N; [exact Hb|].
      apply N.pow_le_mono_r; [discriminate | exact Hi]. }
  rewrite <- N.lxor_lor by exact Z.
  rewrite <- N.add_nocarry_lxor by exact Z.
  rewrite N.shiftl_mul_pow2. reflexivity.
Qed.

Lemma reread_char_decoded c : (c < 1114112)%N -> reread_char c = c.
Proof.
  intros Hc. unfold reread_char.
  destruct (N.ltb_spec c 65536) as [|Hge]; [reflexivity|].
  assert (A : forallb half_reads_back (below 1024%N) = true)
    by (vm_compute; reflexivity).
  rewrite forallb_forall in A.
  set (n := (c - 65536)%N).
  assert (Hn : (n < 1048576)%N) by (unfold n; lia).
  assert (H1 : (N.land (N.shiftr n 10) 1023 = n / 1024)%N).
  { change 1023%N with (N.ones 10). rewrite N.land_ones, N.shiftr_div_pow2.
    change (2 ^ 10)%N with 1024%N. apply N.mod_small.
    apply N.Div0.div_lt_upper_bound. exact Hn. }
  assert (H2 : (N.land n 1023 = n mod 1024)%N).
  { change 1023%N with (N.ones 10). now rewrite N.land_ones. }
  assert (B1 : (n / 1024 < 1024)%N)
    by (apply N.Div0.div_lt_upper_bound; exact Hn).
  assert (B2 : (n mod 1024 < 1024)%N) by (apply N.mod_lt; discriminate).
  unfold pair_of. fold n. cbn [fst snd]. rewrite H1, H2.
  pose proof (A _ (below_in 1024%N _ B1)) as A1.
  pose proof (A _ (below_in 1024%N _ B2)) as A2.
  unfold half_reads_back in A1, A2.
  apply andb_true_iff in A1, A2.
  destruct A1 as [A1 _], A2 as [_ A2].
  apply N.eqb_eq in A1, A2.
  unfold join_surrogates. rewrite A1, A2.
  rewrite lor_shiftl_disjoint by exact B2.
  pose proof (N.div_mod n 1024) as D. unfold n in *. lia.
Qed.

Lemma reread_decoded t : forallb decoded_char t = true -> reread t = t.
Proof.
  induction t as [|c t IH]; [reflexivity|].
  intros H. simpl in H. apply andb_true_iff in H. destruct H as [Hc Ht].
  unfold decoded_char in Hc. apply andb_true_iff in Hc.
  destruct Hc as [Hlt Hnh]. apply N.ltb_lt in Hlt.
  apply negb_true_iff in Hnh.
  cbn [reread]. rewrite Hnh, (reread_char_decoded c Hlt), (IH Ht).
  reflexivity.
Qed.

(** On decoded text the objects read back are the dictionaries that
    were written. *)
Lemma reread_symbol_decoded r :
  decoded_symbol r = true -> reread_symbol r = json_of_symbol r.
Proof.
  unfold decoded_symbol. rewrite !andb_true_iff.
  intros [[[[Ht Hn] Hp] Hd] Hs].
  unfold reread_symbol, json_of_symbol.
  rewrite (reread_decoded _ Ht), (reread_decoded _ Hd), (reread_decoded _ Hs).
  destruct (name r) as [|n], (params r) as [|p]; simpl in *;
    rewrite ?(reread_decoded _ Hn), ?(reread_decoded _ Hp); reflexivity.
Qed.

Lemma json_loads_dump_decoded chunks :
  forallb decoded_symbol chunks = true ->
  json_loads (json_dump chunks) = Some (JArr (map json_of_symbol chunks)).
Proof.
  intros H. rewrite json_loads_dump. do 2 f_equal.
  apply map_ext_in. intros r Hr. apply reread_symbol_decoded.
  rewrite forallb_forall in H. now apply H.
Qed.

(* ================================================================== *)
(** * Further properties *)

(** ** The spans of the matches *)

Lemma match_at_suffix r s rest g :
  match_at r s = Some (rest, g) -> exists pre, s = pre ++ rest.
Proof. intros H. apply match_at_sound in H. eapply matches_suffix. exact H. Qed.

(** The scan reports matches that lie within the text, each ending before
    the next one starts. *)
Lemma finditer_from_spans r : forall s pos skip,
  Forall (fun m => pos + skip <= m_start m /\ m_start m <= m_end m
                   /\ m_end m <= pos + length s)
         (finditer_from r pos skip s)
  /\ StronglySorted ends_before (finditer_from r pos skip s).
Proof.
  assert (Up : forall pos k len l,
    Forall (fun m => S pos + k <= m_start m /\ m_start m <= m_end m
                     /\ m_end m <= S pos + len) l ->
    Forall (fun m => pos + S k <= m_start m /\ m_start m <= m_end m
                     /\ m_end m <= pos + S len) l).
  { intros pos k len l H. eapply Forall_impl; [|exact H]. simpl. intros; lia. }
  induction s as [|c s IH]; intros pos skip.
  - destruct skip; simpl; [|split; constructor].
    destruct (match_at r []) as [[rest g]|]; [|split; constructor].
    split; repeat constructor; cbn [m_start m_end length]; lia.
  - destruct skip as [|skip]; [rewrite finditer_from_cons|simpl].
    + destruct (match_at r (c :: s)) as [[rest g]|] eqn:E.
      * destruct (IH (S pos) (length (c :: s) - length rest - 1)) as [A B].
        split.
        -- constructor; [cbn [m_start m_end]; lia|].
           eapply Forall_impl; [|exact A]. cbv beta.
           cbn [length] in *. intros; lia.
        -- constructor; [assumption|].
           eapply Forall_impl; [|exact A]. unfold ends_before.
           cbn [m_start m_end length]. intros; lia.
      * destruct (IH (S pos) 0) as [A B]. split; [|assumption].
        eapply Forall_impl; [|exact A]. cbv beta. cbn [length].
        intros; lia.
    + destruct (IH (S pos) skip) as [A B]. split; [|assumption].
      now apply Up.
Qed.

Lemma finditer_proper r s :
  (forall suf rest g, match_at r suf = Some (rest, g) ->
                      length rest < length suf) ->
  Forall (proper_span (length s)) (finditer r s).
Proof.
  intros Hne. apply Forall_forall. intros m Hm.
  destruct (finditer_from_spans r s 0 0) as [A _].
  rewrite Forall_forall in A. destruct (A m Hm) as (_ & _ & Hend).
  apply finditer_in in Hm.
  destruct Hm as (pre & suf & rest & _ & _ & Hmatch & He).
  apply Hne in Hmatch. split; [lia | exact Hend].
Qed.

(** X1. In each of the two passes the matches cover at least one
    character, lie inside the text, and come one after the other without
    overlap: a character of the text belongs to at most one match of a
    pass. *)
Theorem X1_matches_disjoint_in_order (content : text) :
  (Forall (proper_span (length content)) (func_matches content)
   /\ StronglySorted ends_before (func_matches content))
  /\ (Forall (proper_span (length content)) (struct_matches content)
      /\ StronglySorted ends_before (struct_matches content)).
Proof.
  split; split.
  - apply finditer_proper. intros suf rest g. apply func_match_nonempty.
  - apply finditer_from_spans.
  - apply finditer_proper. intros suf rest g H.
    apply struct_match_inv in H. destruct H as (nm & g0 & _ & _ & _ & H).
    exact H.
  - apply finditer_from_spans.
Qed.

(** ** The text under a match *)

Lemma matches_lit w : forall s g s1 g1,
  matches (lit w) s g s1 g1 -> s = w ++ s1 /\ g1 = g.
Proof.
  induction w as [|c w IH]; intros s g s1 g1 H; simpl in H.
  - inversion H; subst. now split.
  - inversion H as [ | |r1 r2 s' g' s2 g2 s3 g3 H1 H2| | | | | ]; subst.
    inversion H1 as [ |cs' d s' g' Hd| | | | | | ]; subst.
    simpl in Hd. apply N.eqb_eq in Hd. subst d.
    apply IH in H2. destruct H2 as [-> ->]. now split.
Qed.

Lemma matches_chr_lit c s g s1 g1 :
  matches (Chr (Lit c)) s g s1 g1 -> s = c :: s1 /\ g1 = g.
Proof.
  intros H. inversion H as [ |cs' d s' g' Hd| | | | | | ]; subst.
  simpl in Hd. apply N.eqb_eq in Hd. now subst d.
Qed.

Lemma matches_star_class b cs s g s1 g1 :
  matches (Star b (Chr cs)) s g s1 g1 ->
  exists a, s = a ++ s1 /\ all_in cs a = true /\ g1 = g.
Proof.
  intros H. pose proof (matches_group_free _ _ _ _ _ H eq_refl) as ->.
  apply matches_star_chr in H. destruct H as (a & -> & Ha). now exists a.
Qed.

Lemma matches_plus_class cs s g s1 g1 :
  matches (Plus (Chr cs)) s g s1 g1 ->
  exists a, s = a ++ s1 /\ all_in cs a = true /\ a <> [] /\ g1 = g.
Proof.
  intros H. pose proof (matches_group_free _ _ _ _ _ H eq_refl) as ->.
  apply matches_plus_chr in H. destruct H as (c & a & -> & Ha).
  exists (c :: a). repeat split; [assumption | discriminate].
Qed.

Lemma comment_block_app l1 l2 :
  comment_block (l1 ++ l2) = comment_block l1 ++ comment_block l2.
Proof. unfold comment_block. now rewrite map_app, concat_app. Qed.

Lemma comment_groups_cons c lines :
  comment_groups (c :: lines) = comment_groups lines ++ [(1, comment_line c)].
Proof. reflexivity. Qed.

(** What the comment repetition has consumed is a block of comment lines,
    and it has captured each of them in turn. *)
Lemma matches_comment_lines s g s1 g1 :
  matches comment_lines s g s1 g1 ->
  exists lines,
    s = comment_block lines ++ s1 /\
    Forall (fun c => all_in Dot c = true) lines /\
    g1 = comment_groups lines ++ g.
Proof.
  unfold comment_lines. intros H.
  remember (Star true (Group 1 (lit (txt "//") ;; Star true (Chr Dot)
                                ;; Chr (Lit NL)))%re) as r eqn:Er.
  induction H as [ | | | | | |b r0 s g|b r0 s g s1 g1 s2 g2 Hit _ Hlen Hrest IH];
    try discriminate.
  - exists []. repeat split. constructor.
  - inversion Er; subst b r0. clear Er.
    destruct (IH eq_refl) as (lines & -> & Hl & ->).
    inversion Hit as [ | | | | |n' r' s' g' s1' g1' Hin| | ]; subst.
    inversion Hin as [ | |r1 r2 s' g' sa ga sb gb H1 H2| | | | | ]; subst.
    apply (matches_lit (txt "//")) in H1. destruct H1 as [-> ->].
    inversion H2 as [ | |r1 r2 s' g' sc gc sd gd H3 H4| | | | | ]; subst.
    apply matches_star_class in H3. destruct H3 as (c & -> & Hc & ->).
    apply matches_chr_lit in H4. destruct H4 as [-> ->].
    exists (c :: lines). split; [|split].
    + rewrite comment_block_cons, <- app_assoc, comment_line_app.
      reflexivity.
    + now constructor.
    + assert (E : taken (txt "//" ++ c ++ NL :: comment_block lines ++ s2)
                        (comment_block lines ++ s2) = comment_line c)
        by (rewrite <- comment_line_app; apply taken_app).
      rewrite E, comment_groups_cons, <- app_assoc. reflexivity.
Qed.

(** One step through a sequence, keeping what the head has matched. *)
Ltac stage_keep H s' g' M :=
  rewrite run_seq in H; apply run_sound in H;
  destruct H as (s' & g' & M & H).

(** The optional receiver clause. *)
Lemma matches_receiver s g s1 g1 :
  matches (Opt (Group 2 (Chr (Lit (ch "(")) ;; Star false (Chr Dot) ;;
                         Chr (Lit (ch ")")) ;; Plus (Chr Space)))) s g s1 g1 ->
  exists part g2, s = part ++ s1 /\ g1 = g2 ++ g /\ receiver_ok part g2.
Proof.
  intros H. inversion H as [ | | |r s' g' s1' g1' Hg|r s' g'| | | ]; subst.
  - inversion Hg as [ | | | | |n' r' s' g' s1' g1' Hin| | ]; subst.
    inversion Hin as [ | |r1 r2 s' g' sa ga sb gb H1 H2| | | | | ]; subst.
    apply matches_chr_lit in H1. destruct H1 as [-> ->].
    inversion H2 as [ | |r1 r2 s' g' sc gc sd gd H3 H4| | | | | ]; subst.
    apply matches_star_class in H3. destruct H3 as (recv & -> & Hr & ->).
    inversion H4 as [ | |r1 r2 s' g' se ge sf gf H5 H6| | | | | ]; subst.
    apply matches_chr_lit in H5. destruct H5 as [-> ->].
    apply matches_plus_class in H6.
    destruct H6 as (sp2 & -> & Hsp & Hne & ->).
    match goal with
    | |- context [taken ?x s1] =>
        assert (E : x = (txt "(" ++ recv ++ txt ")" ++ sp2) ++ s1)
          by (rewrite <- !app_assoc; reflexivity);
        rewrite E
    end.
    rewrite taken_app.
    exists (txt "(" ++ recv ++ txt ")" ++ sp2),
           [(2, txt "(" ++ recv ++ txt ")" ++ sp2)].
    split; [reflexivity|]. split; [reflexivity|].
    right. exists recv, sp2. repeat split; assumption.
  - exists [], []. repeat split. now left.
Qed.

(** A match of the function pattern, piece by piece. *)
Lemma func_match_shape s rest g :
  match_at func_re s = Some (rest, g) ->
  exists lines ws sp part g2 nm ws2 p,
    s = comment_block lines ++ ws ++ txt "func" ++ sp ++ part ++ nm ++ ws2
        ++ txt "(" ++ p ++ txt ")" ++ rest /\
    g = (4, p) :: (3, nm) :: g2 ++ comment_groups lines /\
    Forall (fun c => all_in Dot c = true) lines /\
    all_in Space ws = true /\
    (all_in Space sp = true /\ sp <> []) /\
    receiver_ok part g2 /\
    (all_in Word nm = true /\ nm <> []) /\
    all_in Space ws2 = true /\
    (all_in Dot p = true /\ ~ In RPAREN p).
Proof.
  unfold match_at, func_re. intros H.
  stage_keep H s1 g1 M1. apply matches_comment_lines in M1.
  destruct M1 as (lines & -> & Hl & ->).
  stage_keep H s2 g2 M2. apply matches_star_class in M2.
  destruct M2 as (ws & -> & Hws & ->).
  stage_keep H s3 g3 M3. apply matches_lit in M3. destruct M3 as [-> ->].
  stage_keep H s4 g4 M4. apply matches_plus_class in M4.
  destruct M4 as (sp & -> & Hsp & Hspne & ->).
  stage_keep H s5 g5 M5. apply matches_receiver in M5.
  destruct M5 as (part & gr & -> & -> & Hrecv).
  stage_keep H s6 g6 M6. apply matches_word_group in M6.
  destruct M6 as (nm & Hne & Hnm & -> & ->).
  stage_keep H s7 g7 M7. apply matches_star_class in M7.
  destruct M7 as (ws2 & -> & Hws2 & ->).
  rewrite run_seq in H. destruct s7 as [|c s8]; [discriminate|].
  rewrite run_chr in H. simpl cset_test in H.
  destruct (N.eqb_spec c 40) as [->|]; [|discriminate].
  rewrite run_seq, run_group in H.
  apply lazy_star_first in H.
  destruct H as (p & rest' & -> & Hp & Hk & Hfirst).
  destruct rest' as [|d rest']; [discriminate|].
  rewrite run_chr in Hk. simpl cset_test in Hk.
  destruct (N.eqb_spec d 41) as [->|]; [|discriminate].
  inversion Hk; subst. clear Hk.
  change (41%N :: rest) with ([41%N] ++ rest). rewrite taken_app.
  exists lines, ws, sp, part, gr, nm, ws2, p.
  rewrite app_nil_r.
  split; [reflexivity|]. split; [reflexivity|].
  repeat split; try assumption.
  intros Hin. apply in_split in Hin. destruct Hin as (a1 & a2 & E).
  specialize (Hfirst a1 RPAREN a2 E).
  rewrite run_chr in Hfirst. discriminate.
Qed.

(** A match of the struct pattern, piece by piece. *)
Lemma struct_match_shape s rest g :
  match_at struct_re s = Some (rest, g) ->
  exists lines ws sp nm sp2 ws2,
    s = comment_block lines ++ ws ++ txt "type" ++ sp ++ nm ++ sp2
        ++ txt "struct" ++ ws2 ++ txt "{" ++ rest /\
    g = (2, nm) :: comment_groups lines /\
    Forall (fun c => all_in Dot c = true) lines /\
    all_in Space ws = true /\
    (all_in Space sp = true /\ sp <> []) /\
    (all_in Word nm = true /\ nm <> []) /\
    (all_in Space sp2 = true /\ sp2 <> []) /\
    all_in Space ws2 = true.
Proof.
  unfold match_at, struct_re. intros H.
  stage_keep H s1 g1 M1. apply matches_comment_lines in M1.
  destruct M1 as (lines & -> & Hl & ->).
  stage_keep H s2 g2 M2. apply matches_star_class in M2.
  destruct M2 as (ws & -> & Hws & ->).
  stage_keep H s3 g3 M3. apply matches_lit in M3. destruct M3 as [-> ->].
  stage_keep H s4 g4 M4. apply matches_plus_class in M4.
  destruct M4 as (sp & -> & Hsp & Hspne & ->).
  stage_keep H s5 g5 M5. apply matches_word_group in M5.
  destruct M5 as (nm & Hne & Hnm & -> & ->).
  stage_keep H s6 g6 M6. apply matches_plus_class in M6.
  destruct M6 as (sp2 & -> & Hsp2 & Hsp2ne & ->).
  stage_keep H s7 g7 M7. apply matches_lit in M7. destruct M7 as [-> ->].
  stage_keep H s8 g8 M8. apply matches_star_class in M8.
  destruct M8 as (ws2 & -> & Hws2 & ->).
  destruct s8 as [|c s9]; [discriminate|].
  rewrite run_chr in H. simpl cset_test in H.
  destruct (N.eqb_spec c 123) as [->|]; [|discriminate].
  inversion H; subst. clear H.
  exists lines, ws, sp, nm, sp2, ws2. rewrite app_nil_r.
  repeat split; try assumption.
Qed.

(** ** Trimming *)

Lemma lstrip_app_stop x c y :
  is_space c = false -> lstrip (x ++ c :: y) = lstrip x ++ c :: y.
Proof.
  intros Hc. induction x as [|d x IH]; simpl.
  - now rewrite Hc.
  - destruct (is_space d); [exact IH | reflexivity].
Qed.

Lemma lstrip_split x :
  exists dropped, x = dropped ++ lstrip x /\ forallb is_space dropped = true.
Proof.
  induction x as [|d x IH]; simpl.
  - now exists [].
  - destruct (is_space d) eqn:Hd.
    + destruct IH as (dr & E & Hdr). exists (d :: dr). split.
      * simpl. now rewrite <- E.
      * simpl. now rewrite Hd.
    + now exists [].
Qed.

Lemma lstrip_idem x : lstrip (lstrip x) = lstrip x.
Proof.
  induction x as [|d x IH]; simpl; [reflexivity|].
  destruct (is_space d) eqn:Hd; [exact IH|]. simpl. now rewrite Hd.
Qed.

(** [rstrip] keeps a prefix and drops white space only. *)
Lemma rstrip_split x :
  exists dropped, x = rstrip x ++ dropped /\ forallb is_space dropped = true.
Proof.
  unfold rstrip. destruct (lstrip_split (rev x)) as (dr & E & Hdr).
  exists (rev dr). split.
  - rewrite <- rev_app_distr, <- E. now rewrite rev_involutive.
  - rewrite forallb_forall in *. intros c Hc. apply Hdr.
    now apply in_rev.
Qed.

Lemma rstrip_keeps_class cs x : all_in cs x = true -> all_in cs (rstrip x) = true.
Proof.
  intros H. destruct (rstrip_split x) as (dr & E & _).
  rewrite E in H. unfold all_in in *. rewrite forallb_app in H.
  now apply andb_true_iff in H.
Qed.

(** Trimming a comment line keeps the marker and drops the line break and
    the white space before it. *)
Lemma strip_comment_line c : strip (comment_line c) = txt "//" ++ rstrip c.
Proof.
  unfold strip, comment_line.
  change (txt "//" ++ c ++ [NL]) with (47%N :: 47%N :: c ++ [NL]).
  rewrite lstrip_nonspace by reflexivity.
  unfold rstrip. cbn [rev]. rewrite rev_app_distr. cbn [rev app].
  rewrite <- !app_assoc. cbn [app lstrip].
  change (is_space NL) with true. cbv iota.
  rewrite lstrip_app_stop by reflexivity.
  rewrite rev_app_distr. reflexivity.
Qed.

Lemma strip_trimmed_comment c :
  strip (txt "//" ++ rstrip c) = txt "//" ++ rstrip c.
Proof.
  unfold strip.
  change (txt "//" ++ rstrip c) with (47%N :: 47%N :: rstrip c).
  rewrite lstrip_nonspace by reflexivity.
  unfold rstrip at 1. cbn [rev]. rewrite <- !app_assoc. cbn [app].
  unfold rstrip. rewrite rev_involutive.
  rewrite lstrip_app_stop by reflexivity. rewrite lstrip_idem.
  rewrite rev_app_distr. reflexivity.
Qed.

Lemma no_nl_of_dot x : all_in Dot x = true -> ~ In NL x.
Proof.
  intros H Hin. unfold all_in in H. rewrite forallb_forall in H.
  apply H in Hin. discriminate Hin.
Qed.

(** ** The [doc] of a match *)

Lemma get_group_comment_groups lines :
  get_group 1 (comment_groups lines)
  = match rev lines with
    | [] => None
    | c :: _ => Some (comment_line c)
    end.
Proof.
  unfold comment_groups. rewrite <- map_rev.
  destruct (rev lines) as [|c l]; reflexivity.
Qed.

Lemma get_group_app n g0 g :
  get_group n g0 = None -> get_group n (g0 ++ g) = get_group n g.
Proof.
  induction g0 as [|[i t] g0 IH]; simpl; [reflexivity|].
  destruct (Nat.eqb i n); [discriminate | exact IH].
Qed.

Lemma doc_of_block m g0 lines :
  m_groups m = g0 ++ comment_groups lines ->
  get_group 1 g0 = None ->
  doc_of m = block_doc lines.
Proof.
  intros Hg H0. unfold doc_of, group, block_doc.
  rewrite Hg, get_group_app, get_group_comment_groups by assumption.
  destruct (rev lines) as [|c l]; reflexivity.
Qed.

Lemma receiver_no_group1 part g2 : receiver_ok part g2 -> get_group 1 g2 = None.
Proof.
  intros [[_ ->]|(recv & sp2 & _ & _ & _ & _ & ->)]; reflexivity.
Qed.

(** The [doc] of a block is empty, or the trimmed last line of the block. *)
Lemma block_doc_cases lines :
  Forall (fun c => all_in Dot c = true) lines ->
  (lines = [] /\ block_doc lines = [])
  \/ (exists l c, lines = l ++ [c] /\ all_in Dot c = true
                  /\ block_doc lines = txt "//" ++ rstrip c).
Proof.
  intros Hl. unfold block_doc.
  destruct (rev lines) as [|c l] eqn:E.
  - left. split; [|reflexivity].
    apply (f_equal (@rev text)) in E. now rewrite rev_involutive in E.
  - right. exists (rev l), c.
    apply (f_equal (@rev text)) in E. rewrite rev_involutive in E.
    simpl in E. split; [exact E|]. split.
    + rewrite Forall_forall in Hl. apply Hl. rewrite E.
      apply in_or_app. right. now left.
    + apply strip_comment_line.
Qed.

(** ** The records and the text they come from *)

Lemma symbols_of_cases file_path content r :
  In r (symbols_of file_path content) ->
  (exists m, In m (func_matches content) /\ r = func_symbol file_path m)
  \/ (exists m, In m (struct_matches content) /\ r = struct_symbol file_path m).
Proof.
  unfold symbols_of. intros H. apply in_app_or in H.
  destruct H as [H|H]; apply in_map_iff in H; destruct H as (m & <- & Hm);
    [left | right]; now exists m.
Qed.

Lemma startswith_app_l p : forall a b,
  startswith a p = true -> startswith (a ++ b) p = true.
Proof.
  induction p as [|x p IH]; intros a b H; [now destruct (a ++ b)|].
  destruct a as [|y a]; [discriminate H|].
  simpl in *. apply andb_true_iff in H. destruct H as [-> H].
  simpl. now apply IH.
Qed.

Lemma startswith_self w : forall b, startswith (w ++ b) w = true.
Proof.
  induction w as [|x w IH]; intros b; [now destruct b|].
  simpl. now rewrite N.eqb_refl, IH.
Qed.

Lemma endswith_app_r a b suffix :
  endswith b suffix = true -> endswith (a ++ b) suffix = true.
Proof.
  unfold endswith. intros H. rewrite rev_app_distr.
  now apply startswith_app_l.
Qed.

(** [os.path.join] keeps the extension of the file name. *)
Lemma endswith_path_join root file suffix :
  endswith file suffix = true -> endswith (path_join root file) suffix = true.
Proof.
  intros H. unfold path_join.
  destruct (startswith file (txt "/")); [assumption|].
  destruct root as [|c root]; [assumption|].
  destruct (endswith (c :: root) (txt "/")).
  - now apply endswith_app_r.
  - apply endswith_app_r. now apply endswith_app_r.
Qed.

(** X2. Every record of the output has type [function] or [struct], a
    name that is a non-empty run of word characters, a [params] text
    that holds no line break and no closing parenthesis, and a
    [source_file] that ends with [.go]. *)
Theorem X2_record_fields (w : world) (chunks : list symbol) (r : symbol) :
  collect w = Ok chunks -> In r chunks ->
  (type_ r = txt "function" \/ type_ r = txt "struct")
  /\ (exists nm, name r = PyStr nm /\ nm <> [] /\ all_in Word nm = true)
  /\ (exists p, params r = PyStr p /\ all_in Dot p = true /\ ~ In RPAREN p)
  /\ endswith (source_file r) (txt ".go") = true.
Proof.
  intros Hc Hr.
  destruct (collect_chunk_origin w chunks r Hc Hr)
    as (root & file & content & Hgo & Hin).
  pose proof (symbols_of_fields _ _ _ Hin) as (Hsrc & Hname).
  split; [|split; [exact Hname|split]].
  - apply symbols_of_cases in Hin.
    destruct Hin as [(m & _ & ->)|(m & _ & ->)]; [now left | now right].
  - apply symbols_of_cases in Hin.
    destruct Hin as [(m & Hm & ->)|(m & _ & ->)].
    + apply finditer_in in Hm.
      destruct Hm as (pre & suf & rest & _ & _ & Hmatch & _).
      apply func_match_shape in Hmatch.
      destruct Hmatch as (lines & ws & sp & part & g2 & nm & ws2 & p & _ & Hg
                          & _ & _ & _ & _ & _ & _ & Hp & Hnp).
      exists p. repeat split; try assumption.
      unfold func_symbol, group_val, group. simpl. now rewrite Hg.
    + exists []. repeat split. intros [].
  - rewrite Hsrc. now apply endswith_path_join.
Qed.

Lemma X2_record_fields_witness :
  let r := nth 0 sample_chunks sample_record in
  (type_ r = txt "function" \/ type_ r = txt "struct")
  /\ (exists nm, name r = PyStr nm /\ nm <> [] /\ all_in Word nm = true)
  /\ (exists p, params r = PyStr p /\ all_in Dot p = true /\ ~ In RPAREN p)
  /\ endswith (source_file r) (txt ".go") = true.
Proof.
  apply (X2_record_fields sample_world sample_chunks).
  - vm_compute. reflexivity.
  - vm_compute. left. reflexivity.
Defined.

Lemma match_doc_cases content pre suf lines tail d :
  content = pre ++ suf -> suf = comment_block lines ++ tail ->
  Forall (fun c => all_in Dot c = true) lines ->
  d = block_doc lines ->
  (d = [] \/
   exists before c after,
     content = before ++ comment_line c ++ after /\
     all_in Dot c = true /\ d = txt "//" ++ rstrip c)
  /\ ~ In NL d /\ strip d = d.
Proof.
  intros -> -> Hl ->.
  destruct (block_doc_cases lines Hl) as [[-> E]|(l & c & -> & Hc & E)];
    rewrite E.
  - split; [now left|]. split; [intros []|reflexivity].
  - split; [|split].
    + right. exists (pre ++ comment_block l), c, tail.
      split; [|now split].
      rewrite comment_block_app. unfold comment_block at 2. cbn [map concat].
      rewrite app_nil_r, <- !app_assoc. reflexivity.
    + intros Hin. apply in_app_or in Hin. destruct Hin as [Hin|Hin].
      * simpl in Hin. destruct Hin as [H|[H|[]]]; discriminate H.
      * revert Hin. apply no_nl_of_dot. now apply rstrip_keeps_class.
    + apply strip_trimmed_comment.
Qed.

(** X3. The [doc] of a record is empty, or it is one comment line of
    the file without its line break and the white space before it: it
    starts with the comment marker, holds no line break, and is already
    trimmed.  No text of a declaration gets into it. *)
Theorem X3_doc_is_one_trimmed_comment_line (file_path content : text) (r : symbol) :
  In r (symbols_of file_path content) ->
  (doc r = [] \/
   exists before c after,
     content = before ++ comment_line c ++ after /\
     all_in Dot c = true /\ doc r = txt "//" ++ rstrip c)
  /\ ~ In NL (doc r) /\ strip (doc r) = doc r.
Proof.
  intros Hin. apply symbols_of_cases in Hin.
  destruct Hin as [(m & Hm & ->)|(m & Hm & ->)]; apply finditer_in in Hm;
    destruct Hm as (pre & suf & rest & Hc & _ & Hmatch & _).
  - apply func_match_shape in Hmatch.
    destruct Hmatch as (lines & ws & sp & part & g2 & nm & ws2 & p & Hs & Hg
                        & Hl & _ & _ & Hrecv & _).
    apply (match_doc_cases content pre suf lines _ _ Hc Hs Hl).
    apply (doc_of_block m ((4, p) :: (3, nm) :: g2)).
    + now rewrite Hg.
    + simpl. now apply (receiver_no_group1 part).
  - apply struct_match_shape in Hmatch.
    destruct Hmatch as (lines & ws & sp & nm & sp2 & ws2 & Hs & Hg & Hl & _).
    apply (match_doc_cases content pre suf lines _ _ Hc Hs Hl).
    apply (doc_of_block m [(2, nm)]); [now rewrite Hg | reflexivity].
Qed.

Lemma X3_doc_is_one_trimmed_comment_line_witness :
  (doc sample_record = [] \/
   exists before c after,
     greeter_go = before ++ comment_line c ++ after /\
     all_in Dot c = true /\ doc sample_record = txt "//" ++ rstrip c)
  /\ ~ In NL (doc sample_record) /\ strip (doc sample_record) = doc sample_record.
Proof.
  apply (X3_doc_is_one_trimmed_comment_line (txt "./backend/main.go")).
  vm_compute. left. reflexivity.
Defined.

Lemma last_is_space l :
  l <> [] -> all_in Space l = true ->
  exists pre c0, l = pre ++ [c0] /\ is_space c0 = true.
Proof.
  intros Hne Hl. destruct (exists_last Hne) as (pre & c0 & ->).
  exists pre, c0. split; [reflexivity|].
  unfold all_in in Hl. rewrite forallb_app in Hl.
  apply andb_true_iff in Hl. destruct Hl as [_ Hl]. simpl in Hl.
  now rewrite andb_true_r in Hl.
Qed.

(** White space stands right before the name, with or without a
    receiver clause. *)
Lemma space_before_name sp part g2 :
  sp <> [] -> all_in Space sp = true -> receiver_ok part g2 ->
  exists b c0, sp ++ part = b ++ [c0] /\ is_space c0 = true.
Proof.
  intros Hne Hsp [[-> _]|(recv & sp2 & -> & _ & Hsp2 & Hne2 & _)].
  - rewrite app_nil_r. now apply last_is_space.
  - destruct (last_is_space sp2 Hne2 Hsp2) as (pre & c0 & -> & Hc).
    exists (sp ++ txt "(" ++ recv ++ txt ")" ++ pre), c0.
    split; [now rewrite <- !app_assoc | exact Hc].
Qed.

(** X4. The name of a function record is a whole word of the text: it
    comes after the keyword [func], a white-space character stands right
    before it, and only white space separates it from the opening
    parenthesis of the captured parameter text. *)
Theorem X4_function_name_is_whole_word (content : text) (m : rmatch) :
  In m (func_matches content) ->
  exists a b c0 nm ws2 p after,
    content = a ++ txt "func" ++ b ++ [c0] ++ nm ++ ws2
              ++ txt "(" ++ p ++ txt ")" ++ after /\
    is_space c0 = true /\
    (all_in Word nm = true /\ nm <> []) /\
    all_in Space ws2 = true /\
    (forall file_path,
        name (func_symbol file_path m) = PyStr nm /\
        params (func_symbol file_path m) = PyStr p).
Proof.
  intros Hm. apply finditer_in in Hm.
  destruct Hm as (pre & suf & rest & -> & _ & Hmatch & _).
  apply func_match_shape in Hmatch.
  destruct Hmatch as (lines & ws & sp & part & g2 & nm & ws2 & p & -> & Hg
                      & _ & _ & [Hsp Hspne] & Hrecv & Hnm & Hws2 & _).
  destruct (space_before_name sp part g2 Hspne Hsp Hrecv) as (b & c0 & E & Hc0).
  exists (pre ++ comment_block lines ++ ws), b, c0, nm, ws2, p, rest.
  split; [|repeat split; try assumption; try apply Hnm].
  - rewrite <- !app_assoc. do 4 f_equal.
    rewrite (app_assoc sp part), E, <- !app_assoc. reflexivity.
  - unfold func_symbol, group_val, group. simpl. now rewrite Hg.
  - unfold func_symbol, group_val, group. simpl. now rewrite Hg.
Qed.

Lemma X4_function_name_is_whole_word_witness :
  exists a b c0 nm ws2 p after,
    greeter_go = a ++ txt "func" ++ b ++ [c0] ++ nm ++ ws2
                 ++ txt "(" ++ p ++ txt ")" ++ after /\
    is_space c0 = true /\
    (all_in Word nm = true /\ nm <> []) /\
    all_in Space ws2 = true /\
    (forall file_path,
        name (func_symbol file_path sample_func_match) = PyStr nm /\
        params (func_symbol file_path sample_func_match) = PyStr p).
Proof.
  apply (X4_function_name_is_whole_word greeter_go sample_func_match).
  vm_compute. left. reflexivity.
Defined.

(** X5. A struct record comes from the keyword [type], white space, a
    word, white space, the keyword [struct], optional white space and an
    opening brace, on which the match ends; its name is that word. *)
Theorem X5_struct_match_text (content : text) (m : rmatch) :
  In m (struct_matches content) ->
  exists a sp nm sp2 ws2 after,
    content = a ++ txt "type" ++ sp ++ nm ++ sp2 ++ txt "struct" ++ ws2
              ++ txt "{" ++ after /\
    m_end m = length content - length after /\
    (all_in Space sp = true /\ sp <> []) /\
    (all_in Word nm = true /\ nm <> []) /\
    (all_in Space sp2 = true /\ sp2 <> []) /\
    all_in Space ws2 = true /\
    (forall file_path, name (struct_symbol file_path m) = PyStr nm).
Proof.
  intros Hm. apply finditer_in in Hm.
  destruct Hm as (pre & suf & rest & -> & Hstart & Hmatch & Hend).
  apply struct_match_shape in Hmatch.
  destruct Hmatch as (lines & ws & sp & nm & sp2 & ws2 & -> & Hg
                      & _ & _ & Hsp & Hnm & Hsp2 & Hws2).
  exists (pre ++ comment_block lines ++ ws), sp, nm, sp2, ws2, rest.
  split; [now rewrite <- !app_assoc|].
  split; [rewrite Hend, Hstart, !length_app; lia|].
  repeat split; try assumption; try apply Hsp; try apply Hnm; try apply Hsp2.
  unfold struct_symbol, group_val, group. simpl. now rewrite Hg.
Qed.

Lemma X5_struct_match_text_witness :
  exists a sp nm sp2 ws2 after,
    greeter_go = a ++ txt "type" ++ sp ++ nm ++ sp2 ++ txt "struct" ++ ws2
                 ++ txt "{" ++ after /\
    m_end sample_struct_match = length greeter_go - length after /\
    (all_in Space sp = true /\ sp <> []) /\
    (all_in Word nm = true /\ nm <> []) /\
    (all_in Space sp2 = true /\ sp2 <> []) /\
    all_in Space ws2 = true /\
    (forall file_path,
        name (struct_symbol file_path sample_struct_match) = PyStr nm).
Proof.
  apply (X5_struct_match_text greeter_go sample_struct_match).
  vm_compute. left. reflexivity.
Defined.

(** ** Texts without the keywords *)

Lemma contains_here s w : startswith s w = true -> contains s w = true.
Proof. intros H. destruct s; cbn [contains]; now rewrite H. Qed.

Lemma contains_app a w b : contains (a ++ w ++ b) w = true.
Proof.
  induction a as [|c a IH]; cbn [app].
  - apply contains_here, startswith_self.
  - cbn [contains]. rewrite IH. apply orb_true_r.
Qed.

Lemma finditer_nil r s :
  (forall m, ~ In m (finditer r s)) -> finditer r s = [].
Proof.
  destruct (finditer r s) as [|m l]; [reflexivity|].
  intros H. exfalso. apply (H m). now left.
Qed.

(** X6. A text in which the word [func] does not occur, and in which
    [type] or [struct] does not occur, gives no record at all. *)
Theorem X6_no_keyword_no_record (file_path content : text) :
  contains content (txt "func") = false ->
  contains content (txt "type") = false
  \/ contains content (txt "struct") = false ->
  symbols_of file_path content = [].
Proof.
  intros Hf Hs. unfold symbols_of, func_matches, struct_matches.
  rewrite (finditer_nil func_re), (finditer_nil struct_re); [reflexivity| |].
  - intros m Hm. apply finditer_in in Hm.
    destruct Hm as (pre & suf & rest & -> & _ & Hmatch & _).
    apply struct_match_shape in Hmatch.
    destruct Hmatch as (lines & ws & sp & nm & sp2 & ws2 & -> & _).
    destruct Hs as [Hs|Hs].
    + rewrite (app_assoc pre), (app_assoc _ ws), contains_app in Hs.
      discriminate Hs.
    + rewrite (app_assoc pre), (app_assoc _ ws), (app_assoc _ (txt "type")),
        (app_assoc _ sp), (app_assoc _ nm), (app_assoc _ sp2), contains_app
        in Hs.
      discriminate Hs.
  - intros m Hm. apply finditer_in in Hm.
    destruct Hm as (pre & suf & rest & -> & _ & Hmatch & _).
    apply func_match_shape in Hmatch.
    destruct Hmatch as (lines & ws & sp & part & g2 & nm & ws2 & p & -> & _).
    rewrite (app_assoc pre), (app_assoc _ ws), contains_app in Hf.
    discriminate Hf.
Qed.

Lemma X6_no_keyword_no_record_witness :
  symbols_of (txt "./backend/version.go") no_decl_go = [].
Proof.
  apply X6_no_keyword_no_record.
  - vm_compute. reflexivity.
  - left. vm_compute. reflexivity.
Defined.

(** ** Methods *)

(** The end of the function pattern on a name and a parameter text. *)
Lemma name_and_params_ok nm ws2 p rest g :
  all_in Word nm = true -> nm <> [] -> all_in Space ws2 = true ->
  all_in Dot p = true -> ~ In RPAREN p ->
  run (Group 3 (Plus (Chr Word)) ;; Star true (Chr Space) ;;
       Chr (Lit (ch "(")) ;; Group 4 (Star false (Chr Dot)) ;;
       Chr (Lit (ch ")")))
      (nm ++ ws2 ++ txt "(" ++ p ++ txt ")" ++ rest) g
      (fun s' g' => Some (s', g'))
  = Some (rest, (4, p) :: (3, nm) :: g).
Proof.
  intros Hnm Hne Hws2 Hp Hparen.
  rewrite run_seq, run_group. apply greedy_plus_ok;
    [assumption|assumption| |].
  { apply stops_after_spaces; [apply space_not_word | apply lparen_not_word
                              | assumption]. }
  rewrite taken_app.
  rewrite run_seq. apply greedy_star_ok; [assumption|reflexivity|].
  rewrite run_seq. change (txt "(" ++ p ++ txt ")" ++ rest)
    with (ch "(" :: p ++ txt ")" ++ rest).
  rewrite run_lit_char, run_seq, run_group.
  apply lazy_star_ok; [assumption| |].
  - intros c s Hc. rewrite run_chr. simpl cset_test.
    destruct (N.eqb_spec c 41) as [->|]; [|reflexivity].
    now destruct Hparen.
  - change (txt ")" ++ rest) with (ch ")" :: rest) at 1.
    rewrite run_lit_char, taken_app. reflexivity.
Qed.

(** The receiver clause, when the word after it is the name. *)
Lemma receiver_clause_ok recv sp2 tail g k x :
  all_in Dot recv = true -> ~ In RPAREN recv ->
  all_in Space sp2 = true -> sp2 <> [] -> stops Space tail = true ->
  k tail ((2, txt "(" ++ recv ++ txt ")" ++ sp2) :: g) = Some x ->
  run (Opt (Group 2 (Chr (Lit (ch "(")) ;; Star false (Chr Dot) ;;
                     Chr (Lit (ch ")")) ;; Plus (Chr Space))))
      (txt "(" ++ recv ++ txt ")" ++ sp2 ++ tail) g k
  = Some x.
Proof.
  intros Hr Hparen Hsp Hne Hstop Hk.
  rewrite run_opt.
  assert (E : run (Group 2 (Chr (Lit (ch "(")) ;; Star false (Chr Dot) ;;
                            Chr (Lit (ch ")")) ;; Plus (Chr Space)))
                (txt "(" ++ recv ++ txt ")" ++ sp2 ++ tail) g k = Some x).
  { rewrite run_group, run_seq.
    change (txt "(" ++ recv ++ txt ")" ++ sp2 ++ tail)
      with (ch "(" :: recv ++ txt ")" ++ sp2 ++ tail) at 1.
    rewrite run_lit_char, run_seq.
    apply lazy_star_ok; [assumption| |].
    - intros c s Hc. rewrite run_seq, run_chr. simpl cset_test.
      destruct (N.eqb_spec c 41) as [->|]; [|reflexivity].
      now destruct Hparen.
    - rewrite run_seq.
      change (txt ")" ++ sp2 ++ tail) with (ch ")" :: sp2 ++ tail) at 1.
      rewrite run_lit_char.
      apply greedy_plus_ok; [assumption|assumption|assumption|].
      replace (txt "(" ++ recv ++ txt ")" ++ sp2 ++ tail)
        with ((txt "(" ++ recv ++ txt ")" ++ sp2) ++ tail)
        by now rewrite <- !app_assoc.
      rewrite taken_app. exact Hk. }
  now rewrite E.
Qed.

Lemma func_re_on_method lines ws sp recv sp2 nm ws2 p rest :
  Forall (fun c => all_in Dot c = true) lines ->
  all_in Space ws = true ->
  all_in Space sp = true -> sp <> [] ->
  all_in Dot recv = true -> ~ In RPAREN recv ->
  all_in Space sp2 = true -> sp2 <> [] ->
  all_in Word nm = true -> nm <> [] ->
  all_in Space ws2 = true ->
  all_in Dot p = true -> ~ In RPAREN p ->
  match_at func_re
    (comment_block lines ++ ws ++ txt "func" ++ sp
     ++ txt "(" ++ recv ++ txt ")" ++ sp2 ++ nm ++ ws2
     ++ txt "(" ++ p ++ txt ")" ++ rest)
  = Some (rest, (4, p) :: (3, nm) :: (2, txt "(" ++ recv ++ txt ")" ++ sp2)
                :: comment_groups lines).
Proof.
  intros Hl Hws Hsp Hspne Hr Hrp Hsp2 Hsp2ne Hnm Hnmne Hws2 Hp Hpp.
  unfold match_at, func_re.
  rewrite run_seq. apply comment_lines_ok; [assumption| |].
  { now apply no_slash_after_spaces. }
  rewrite app_nil_r.
  rewrite run_seq. apply greedy_star_ok; [assumption|reflexivity|].
  rewrite run_seq, run_lit.
  rewrite run_seq. apply greedy_plus_ok; [assumption|assumption|reflexivity|].
  rewrite run_seq. apply receiver_clause_ok; try assumption.
  - now apply stops_space_word.
  - now apply name_and_params_ok.
Qed.

(** X7. A method written on one line at the head of the text, below
    any block of comment lines: the receiver clause is passed over, the
    record carries the method name, the parameter text up to the first
    closing parenthesis, and as [doc] the trimmed last comment line, or
    the empty string when there is no comment. *)
Theorem X7_method_record
    (file_path : text) (lines : list text)
    (ws sp recv sp2 nm ws2 p rest : text) :
  Forall (fun c => all_in Dot c = true) lines ->
  all_in Space ws = true ->
  all_in Space sp = true -> sp <> [] ->
  all_in Dot recv = true -> ~ In RPAREN recv ->
  all_in Space sp2 = true -> sp2 <> [] ->
  all_in Word nm = true -> nm <> [] ->
  all_in Space ws2 = true ->
  all_in Dot p = true -> ~ In RPAREN p ->
  exists more,
    symbols_of file_path
      (comment_block lines ++ ws ++ txt "func" ++ sp
       ++ txt "(" ++ recv ++ txt ")" ++ sp2 ++ nm ++ ws2
       ++ txt "(" ++ p ++ txt ")" ++ rest)
    = {| type_ := txt "function"; name := PyStr nm; params := PyStr p;
         doc := block_doc lines; source_file := file_path |} :: more.
Proof.
  intros Hl Hws Hsp Hspne Hr Hrp Hsp2 Hsp2ne Hnm Hnmne Hws2 Hp Hpp.
  pose proof (func_re_on_method lines ws sp recv sp2 nm ws2 p rest
                Hl Hws Hsp Hspne Hr Hrp Hsp2 Hsp2ne Hnm Hnmne Hws2 Hp Hpp)
    as H.
  apply (symbols_of_func_head file_path) in H.
  destruct H as (m & more & Hg & ->). exists more.
  unfold func_symbol, group_val, group. rewrite Hg. simpl get_group.
  do 2 f_equal.
  apply (doc_of_block m [(4, p); (3, nm);
                         (2, txt "(" ++ recv ++ txt ")" ++ sp2)]);
    [assumption | reflexivity].
Qed.

Lemma X7_method_record_witness :
  exists more,
    symbols_of (txt "./backend/square.go") method_go
    = {| type_ := txt "function"; name := PyStr (txt "Area");
         params := PyStr (txt "unit string");
         doc := txt "// Area of the square.";
         source_file := txt "./backend/square.go" |} :: more.
Proof.
  apply (X7_method_record (txt "./backend/square.go")
           [txt " Area of the square."] [] (txt " ") (txt "s *Square")
           (txt " ") (txt "Area") [] (txt "unit string")
           (txt " int {" ++ [NL]));
    try reflexivity; try discriminate.
  - repeat constructor.
  - vm_compute. intuition discriminate.
  - vm_compute. intuition discriminate.
Defined.

(** ** The characters of the output *)

Lemma plain_app a b : plain_text (a ++ b) = plain_text a && plain_text b.
Proof. apply forallb_app. Qed.

Lemma hex_digit_plain x : is_output_char (hex_digit (N.land x 15)) = true.
Proof.
  assert (A : forallb (fun d => is_output_char (hex_digit d)) (below 16%N)
              = true) by (vm_compute; reflexivity).
  rewrite forallb_forall in A. apply A. apply below_in.
  change 15%N with (N.ones 4). rewrite N.land_ones.
  apply N.mod_lt. discriminate.
Qed.

Lemma escape_u_plain n : plain_text (escape_u n) = true.
Proof.
  unfold escape_u, plain_text. cbn [forallb].
  rewrite !hex_digit_plain. reflexivity.
Qed.

Lemma escape_char_plain c : plain_text (escape_char c) = true.
Proof.
  unfold escape_char.
  repeat match goal with
         | |- plain_text (if ?b then _ else _) = true =>
             destruct b eqn:?; [try reflexivity|]
         end.
  - unfold plain_text. cbn [forallb]. unfold is_output_char.
    match goal with H : in_range 32 126 c = true |- _ => rewrite H end.
    now rewrite orb_true_r.
  - apply escape_u_plain.
  - now rewrite plain_app, !escape_u_plain.
Qed.

Lemma encode_string_plain t : plain_text (encode_string t) = true.
Proof.
  unfold encode_string. change (34%N :: ?x) with ([34%N] ++ x).
  rewrite !plain_app. change (plain_text [34%N]) with true.
  rewrite andb_true_r. cbn [andb].
  induction t as [|c t IH]; [reflexivity|].
  cbn [flat_map]. now rewrite plain_app, escape_char_plain, IH.
Qed.

Lemma newline_indent_plain level : plain_text (newline_indent level) = true.
Proof.
  unfold newline_indent, plain_text. cbn [forallb].
  change (is_output_char NL) with true. cbn [andb].
  apply forallb_forall. intros c Hc. apply repeat_spec in Hc. now subst.
Qed.

Lemma join_plain sep l :
  plain_text sep = true -> Forall (fun x => plain_text x = true) l ->
  plain_text (join sep l) = true.
Proof.
  intros Hs Hl. induction Hl as [|x l Hx Hl IH]; [reflexivity|].
  destruct l as [|y l]; [exact Hx|].
  rewrite join_cons2, !plain_app, Hx, Hs, IH. reflexivity.
Qed.

Lemma member_text_plain level kv : plain_text (member_text level kv) = true.
Proof.
  unfold member_text. rewrite !plain_app, encode_string_plain.
  destruct (snd kv) as [|t]; [reflexivity|].
  cbn [json_of_pyval encode]. now rewrite encode_string_plain.
Qed.

Lemma symbol_text_plain level r :
  plain_text (encode level (json_of_symbol r)) = true.
Proof.
  rewrite encode_symbol, !plain_app, !newline_indent_plain.
  rewrite join_plain; [reflexivity| |].
  - now rewrite plain_app, newline_indent_plain.
  - apply Forall_map, Forall_forall. intros kv _. apply member_text_plain.
Qed.

(** X8. Whatever the records hold, the text written to the output file
    is made of line feeds and printable ASCII characters only. *)
Theorem X8_output_is_plain_ascii (go_chunks : list symbol) :
  plain_text (json_dump go_chunks) = true.
Proof.
  destruct go_chunks as [|r chunks]; [reflexivity|].
  rewrite json_dump_cons, !plain_app, !newline_indent_plain.
  rewrite join_plain; [reflexivity| |].
  - now rewrite plain_app, newline_indent_plain.
  - apply Forall_map, Forall_forall. intros x _. apply symbol_text_plain.
Qed.

(** ** How a run ends *)

Lemma scan_flat_app a : forall b acc,
  scan_flat (a ++ b) acc
  = (chunks <- scan_flat a acc ;; scan_flat b chunks).
Proof.
  induction a as [|[[root file] data] a IH]; intros b acc; [reflexivity|].
  cbn [app scan_flat]. destruct (endswith file (txt ".go")); [|apply IH].
  destruct data as [content|]; [|reflexivity]. simpl. apply IH.
Qed.

Lemma scan_files_flat root : forall files acc,
  scan_files root files acc
  = scan_flat (map (fun fd : text * option text => (root, fst fd, snd fd)) files)
              acc.
Proof.
  induction files as [|[file data] files IH]; intros acc; [reflexivity|].
  cbn [scan_files map scan_flat fst snd].
  destruct (endswith file (txt ".go")); [|apply IH].
  destruct data as [content|]; [|reflexivity]. simpl. apply IH.
Qed.

Lemma scan_walk_flat : forall items acc,
  scan_walk items acc = scan_flat (files_in items) acc.
Proof.
  induction items as [|[[root dirs] files] items IH]; intros acc;
    [reflexivity|].
  cbn [scan_walk files_in flat_map]. rewrite scan_flat_app, scan_files_flat.
  destruct (scan_flat _ acc) as [mid|e]; [|reflexivity]. simpl. apply IH.
Qed.

Lemma scan_flat_outcome : forall fs acc,
  scan_flat fs acc
  = match first_unreadable fs with
    | Some path => Raise (ReadError path)
    | None => Ok (acc ++ flat_map part_of fs)
    end.
Proof.
  induction fs as [|[[root file] data] fs IH]; intros acc.
  - simpl. now rewrite app_nil_r.
  - cbn [scan_flat first_unreadable flat_map part_of].
    destruct (endswith file (txt ".go")); [|apply IH].
    destruct data as [content|]; [|reflexivity].
    simpl. rewrite IH. destruct (first_unreadable fs); [reflexivity|].
    now rewrite app_assoc.
Qed.

Lemma collect_outcome w :
  collect w
  = match first_unreadable (walked_files w) with
    | Some path => Raise (ReadError path)
    | None => Ok (flat_map part_of (walked_files w))
    end.
Proof. unfold collect, walked_files. now rewrite scan_walk_flat, scan_flat_outcome. Qed.

(** X9. How a run ends, for a tree the walk can go through.  The files
    are read in walk order; the first [.go] file that cannot be read ends
    the run with its path and nothing is written, whatever comes after
    it.  When there is none, the output file is opened, and the run dies
    there if it cannot be; else the dump of the records of the [.go]
    files, in walk order, is written and the run ends normally.  Files
    without the extension are never read. *)
Theorem X9_run_outcome (w : world) :
  walk_depth w <= walk_depth_limit ->
  main w
  = match first_unreadable (walked_files w) with
    | Some path => Crashed (ReadError path)
    | None =>
        if can_write w
        then Written (json_dump (flat_map part_of (walked_files w)))
        else Crashed WriteError
    end.
Proof.
  intros _. unfold main. rewrite collect_outcome.
  destruct (first_unreadable (walked_files w)); reflexivity.
Qed.

Lemma X9_run_outcome_witness :
  walk_depth broken_world <= walk_depth_limit
  /\ main broken_world
     = match first_unreadable (walked_files broken_world) with
       | Some path => Crashed (ReadError path)
       | None =>
           if can_write broken_world
           then Written (json_dump
                           (flat_map part_of (walked_files broken_world)))
           else Crashed WriteError
       end.
Proof.
  assert (D : walk_depth broken_world <= walk_depth_limit)
    by (unfold walk_depth_limit; vm_compute; lia).
  split; [exact D|].
  apply (X9_run_outcome broken_world D).
Defined.

(** On the sample tree with an unreadable [.go] file in a sub-directory
    the run dies on that file, although the files around it are fine. *)
Example broken_run :
  main broken_world = Crashed (ReadError (txt "./backend/pkg/locked.go"))
  /\ output_file (main broken_world) = None
  /\ exit_status (main broken_world) = 1.
Proof. repeat split; vm_compute; reflexivity. Qed.

(** ** Exact round trip of a run *)

Lemma decoded_app a b : decoded_text (a ++ b) = decoded_text a && decoded_text b.
Proof. apply forallb_app. Qed.

Lemma rstrip_decoded c : decoded_text c = true -> decoded_text (rstrip c) = true.
Proof.
  intros H. destruct (rstrip_split c) as (dr & E & _).
  rewrite E, decoded_app in H. now apply andb_true_iff in H.
Qed.

Lemma path_join_decoded root file :
  decoded_text root = true -> decoded_text file = true ->
  decoded_text (path_join root file) = true.
Proof.
  intros Hr Hf. unfold path_join.
  destruct (startswith file (txt "/")); [assumption|].
  destruct root as [|c root]; [assumption|].
  destruct (endswith (c :: root) (txt "/"));
    rewrite ?decoded_app, Hr, Hf; reflexivity.
Qed.

Lemma decoded_doc content pre suf lines tail d :
  decoded_text content = true ->
  content = pre ++ suf -> suf = comment_block lines ++ tail ->
  Forall (fun c => all_in Dot c = true) lines ->
  d = block_doc lines ->
  decoded_text d = true.
Proof.
  intros Hc E1 E2 Hl Hd.
  destruct (match_doc_cases content pre suf lines tail d E1 E2 Hl Hd)
    as [[->|(before & c & after & E & _ & ->)] _]; [reflexivity|].
  rewrite E in Hc. unfold comment_line in Hc.
  rewrite !decoded_app in Hc. rewrite !andb_true_iff in Hc.
  destruct Hc as (_ & (_ & Hcc & _) & _).
  rewrite decoded_app, (rstrip_decoded c Hcc). reflexivity.
Qed.

(** The strings of a record are made of characters of the path and of
    the text of its file. *)
Lemma symbols_of_decoded file_path content r :
  decoded_text file_path = true -> decoded_text content = true ->
  In r (symbols_of file_path content) -> decoded_symbol r = true.
Proof.
  intros Hp Hc Hin. apply symbols_of_cases in Hin.
  destruct Hin as [(m & Hm & ->)|(m & Hm & ->)]; apply finditer_in in Hm;
    destruct Hm as (pre & suf & rest & E1 & _ & Hmatch & _).
  - apply func_match_shape in Hmatch.
    destruct Hmatch as (lines & ws & sp & part & g2 & nm & ws2 & p & E2 & Hg
                        & Hl & _ & _ & Hrecv & _).
    assert (Hd : decoded_text (doc_of m) = true).
    { apply (decoded_doc content pre suf lines _ _ Hc E1 E2 Hl).
      apply (doc_of_block m ((4, p) :: (3, nm) :: g2));
        [now rewrite Hg | simpl; now apply (receiver_no_group1 part)]. }
    rewrite E1, E2 in Hc. rewrite !decoded_app in Hc.
    rewrite !andb_true_iff in Hc.
    destruct Hc as (_ & _ & _ & _ & _ & _ & Hnm & _ & _ & Hpp & _).
    unfold decoded_symbol, func_symbol, group_val, group. simpl.
    rewrite Hg. simpl. fold (decoded_text nm). fold (decoded_text p).
    fold (decoded_text (doc_of m)). fold (decoded_text file_path).
    now rewrite Hnm, Hpp, Hd, Hp.
  - apply struct_match_shape in Hmatch.
    destruct Hmatch as (lines & ws & sp & nm & sp2 & ws2 & E2 & Hg & Hl & _).
    assert (Hd : decoded_text (doc_of m) = true).
    { apply (decoded_doc content pre suf lines _ _ Hc E1 E2 Hl).
      apply (doc_of_block m [(2, nm)]); [now rewrite Hg | reflexivity]. }
    rewrite E1, E2 in Hc. rewrite !decoded_app in Hc.
    rewrite !andb_true_iff in Hc.
    destruct Hc as (_ & _ & _ & _ & _ & Hnm & _).
    unfold decoded_symbol, struct_symbol, group_val, group. simpl.
    rewrite Hg. simpl. fold (decoded_text nm).
    fold (decoded_text (doc_of m)). fold (decoded_text file_path).
    now rewrite Hnm, Hd, Hp.
Qed.

Lemma part_of_decoded f r :
  decoded_file f = true -> In r (part_of f) -> decoded_symbol r = true.
Proof.
  destruct f as [[root file] data]. unfold decoded_file, part_of.
  destruct (endswith file (txt ".go")); [|contradiction].
  destruct data as [content|]; [|contradiction].
  simpl. rewrite !andb_true_iff. intros [[Hr Hf] Hc] Hin.
  apply (symbols_of_decoded (path_join root file) content);
    [now apply path_join_decoded | assumption | assumption].
Qed.

(** X10. When the directory paths, the names and the texts of the [.go]
    files met by the walk are decoded text (code points below 0x110000,
    no high surrogate), the document written by a run that reaches its
    end reads back as exactly the dictionaries that were dumped: same
    keys, same strings, same order. *)
Theorem X10_output_reads_back_exactly (w : world) (out : text) :
  main w = Written out ->
  forallb decoded_file (walked_files w) = true ->
  exists chunks,
    collect w = Ok chunks /\
    json_loads out = Some (JArr (map json_of_symbol chunks)).
Proof.
  intros Hmain Hdec. unfold main in Hmain.
  pose proof (collect_outcome w) as Hc.
  destruct (collect w) as [chunks|e] eqn:E; [|discriminate].
  destruct (can_write w); [|discriminate].
  inversion Hmain; subst out. exists chunks. split; [reflexivity|].
  apply json_loads_dump_decoded.
  destruct (first_unreadable (walked_files w)); [discriminate|].
  inversion Hc; subst chunks.
  apply forallb_forall. intros r Hr. apply in_flat_map in Hr.
  destruct Hr as (f & Hf & Hr).
  rewrite forallb_forall in Hdec.
  apply (part_of_decoded f); [now apply Hdec | assumption].
Qed.

Lemma X10_output_reads_back_exactly_witness :
  exists chunks,
    collect sample_world = Ok chunks /\
    json_loads sample_output = Some (JArr (map json_of_symbol chunks)).
Proof.
  apply (X10_output_reads_back_exactly sample_world sample_output).
  - vm_compute. reflexivity.
  - vm_compute. reflexivity.
Defined.

(** ** Paths of the walk *)

Lemma entry_induction (P : entry -> Prop) :
  (forall f data, P (File f data)) ->
  (forall d, P (Dir d None)) ->
  (forall d es, Forall P es -> P (Dir d (Some es))) ->
  forall e, P e.
Proof.
  intros HF HN HD. fix IH 1. intros [f data|d [es|]].
  - apply HF.
  - apply HD. induction es as [|e es IHes]; constructor.
    + apply IH.
    + exact IHes.
  - apply HN.
Qed.

Lemma no_slash_start n : no_slash n = true -> startswith n (txt "/") = false.
Proof.
  destruct n as [|c n]; [reflexivity|]. intros H. simpl in H.
  apply andb_true_iff in H. destruct H as [H _].
  rewrite startswith_slash. now apply negb_true_iff in H.
Qed.

Lemma path_join_under root name :
  under_backend root -> no_slash name = true ->
  startswith (path_join root name) (txt "./backend/") = true.
Proof.
  intros Hroot Hn. unfold path_join. rewrite (no_slash_start name Hn).
  destruct Hroot as [->|Hroot].
  - change (endswith backend_dir (txt "/")) with false.
    change backend_dir with (txt "./backend"). cbv iota.
    change (txt "./backend" ++ txt "/" ++ name)
      with (txt "./backend/" ++ name).
    apply startswith_self.
  - destruct root as [|c root]; [discriminate Hroot|].
    destruct (endswith (c :: root) (txt "/")); now apply startswith_app_l.
Qed.

Lemma files_of_names es file data :
  forallb entry_names_ok es = true -> In (file, data) (files_of es) ->
  no_slash file = true.
Proof.
  induction es as [|[f d|d l] es IH]; simpl; [contradiction| |].
  - rewrite andb_true_iff. intros [Hf Hes] [E|Hin].
    + now inversion E; subst.
    + now apply IH.
  - rewrite andb_true_iff. intros [_ Hes] Hin. now apply IH.
Qed.

(** Every item of the walk below a directory under the root has its
    directory path under the root and lists names without slash. *)
Lemma walk_entry_under e : forall parent,
  under_backend parent -> entry_names_ok e = true ->
  Forall (fun it : triple =>
            let '(root, _, files) := it in
            under_backend root /\
            forall file data, In (file, data) files -> no_slash file = true)
         (walk_entry parent e).
Proof.
  induction e as [f data|d|d es IH] using entry_induction;
    intros parent Hp Hok; [constructor|constructor|].
  cbn [walk_entry]. cbn [entry_names_ok] in Hok.
  apply andb_true_iff in Hok. destruct Hok as [Hd Hes].
  assert (Hu : under_backend (path_join parent d))
    by (right; now apply path_join_under).
  constructor.
  - split; [exact Hu|]. intros file data. now apply files_of_names.
  - apply Forall_forall. intros it Hit. apply in_flat_map in Hit.
    destruct Hit as (e & He & Hit).
    rewrite Forall_forall in IH. rewrite forallb_forall in Hes.
    pose proof (IH e He (path_join parent d) Hu (Hes e He)) as H.
    rewrite Forall_forall in H. now apply H.
Qed.

Lemma walked_files_under w root file data :
  names_ok w = true -> In (root, file, data) (walked_files w) ->
  under_backend root /\ no_slash file = true.
Proof.
  unfold names_ok, walked_files, files_in. intros Hok Hin.
  apply in_flat_map in Hin. destruct Hin as ([[root' dirs] files] & Hit & Hin).
  apply in_map_iff in Hin. destruct Hin as ([file' data'] & E & Hin).
  inversion E; subst. clear E.
  destruct (backend w) as [es|]; [|contradiction].
  cbn [os_walk] in Hit. destruct Hit as [E|Hit].
  - inversion E; subst. split; [now left|].
    now apply (files_of_names es file data).
  - apply in_flat_map in Hit. destruct Hit as (e & He & Hit).
    rewrite forallb_forall in Hok.
    pose proof (walk_entry_under e backend_dir (or_introl eq_refl) (Hok e He))
      as H.
    rewrite Forall_forall in H. specialize (H _ Hit). cbv beta iota in H.
    destruct H as [Hu Hf]. split; [exact Hu | now apply (Hf file data)].
Qed.

(** X11. When the names in the tree hold no slash, as names listed by
    the system do, the [source_file] of every record of the output is a
    path below the root: it starts with [./backend/]. *)
Theorem X11_source_file_under_backend
    (w : world) (chunks : list symbol) (r : symbol) :
  names_ok w = true -> collect w = Ok chunks -> In r chunks ->
  startswith (source_file r) (txt "./backend/") = true.
Proof.
  intros Hok Hc Hr. rewrite collect_outcome in Hc.
  destruct (first_unreadable (walked_files w)); [discriminate|].
  inversion Hc; subst chunks. apply in_flat_map in Hr.
  destruct Hr as ([[root file] data] & Hf & Hr).
  destruct (walked_files_under w root file data Hok Hf) as [Hu Hn].
  unfold part_of in Hr.
  destruct (endswith file (txt ".go")); [|contradiction].
  destruct data as [content|]; [|contradiction].
  apply symbols_of_fields in Hr. destruct Hr as [-> _].
  now apply path_join_under.
Qed.

Lemma X11_source_file_under_backend_witness :
  startswith (source_file (nth 2 sample_chunks sample_record))
             (txt "./backend/") = true.
Proof.
  apply (X11_source_file_under_backend sample_world sample_chunks).
  - vm_compute. reflexivity.
  - vm_compute. reflexivity.
  - vm_compute. do 2 right. left. reflexivity.
Defined.

(** ** The walk and the tree *)

Lemma files_below_reaches e : forall dir x,
  In x (files_below dir e) <-> reaches dir e x.
Proof.
  induction e as [f data|d|d es IH] using entry_induction; intros dir x.
  - simpl. split.
    + intros [<-|[]]. constructor.
    + intros H. inversion H; subst. now left.
  - simpl. split; [contradiction|]. intros H. inversion H.
  - cbn [files_below]. rewrite in_flat_map. split.
    + intros (e & He & Hx). apply (Reach_sub dir d es e x He).
      rewrite Forall_forall in IH. now apply (IH e He).
    + intros H. inversion H as [|dir' d' es' e x' He Hx]; subst.
      exists e. split; [exact He|].
      rewrite Forall_forall in IH. now apply (IH e He).
Qed.






(** A file is among the files under the root exactly when it is reached
    from an entry of the root. *)
Lemma files_under_reaches w x :
  In x (files_under w)
  <-> exists es e,
        backend w = Some es /\ In e es /\ reaches backend_dir e x.
Proof.
  unfold files_under. destruct (backend w) as [es|].
  - rewrite in_flat_map. split.
    + intros (e & He & Hx). exists es, e.
      repeat split; [exact He|now apply files_below_reaches].
    + intros (es' & e & [= <-] & He & Hx). exists e.
      split; [exact He|now apply files_below_reaches].
  - split; [contradiction|]. now intros (es & e & [=] & _).
Qed.





(** On the sample tree: the files under the root in listing order, the
    order in which the walk meets them (the sub-directory last), and the
    four records of the two [.go] files. *)
Example sample_files_under :
  map (fun f => snd (fst f)) (files_under sample_world)
  = [txt "main.go"; txt "README.md"; txt "point.go"; txt "notes.txt"]
  /\ list_sum (map records_in (files_under sample_world)) = 4
  /\ length sample_chunks = 4.
Proof. repeat split; vm_compute; reflexivity. Qed.
